(** * Sidenav, search-result and version-dropdown components

    A shallow embedding of the presentation logic of
    [components/Sidenav/TOCNode.js] (in its two revisions), of the
    search-result helpers [escapeRegExp], [highlightSearchTerm] and
    [sanitizePreviewHtml], and of the version dropdown
    ([createVersionLabel], [VersionDropdown]). *)

From Stdlib Require Import String Ascii List Bool Arith NArith Lia.
Import ListNotations.

Open Scope string_scope.

Set Warnings "-register-all".

(** ** JavaScript values used by the components *)

Module Js.

(** An optional string property: [None] is [undefined]. *)
Definition truthy (v : option string) : bool :=
  match v with
  | Some s => negb (s =? "")
  | None => false
  end.

(** [a || b] on optional strings. *)
Definition or_else (a b : option string) : option string :=
  if truthy a then a else b.

(** [v === s] where [s] is a string. *)
Definition strict_eq (v : option string) (s : string) : bool :=
  match v with
  | Some t => t =? s
  | None => false
  end.

(** A string as the sequence of its code units, for the functions that
    scan it. *)
Definition str := list ascii.

Definition lit (s : string) : str := list_ascii_of_string s.

Fixpoint strEqb (a b : str) : bool :=
  match a, b with
  | [], [] => true
  | x :: a', y :: b' => Ascii.eqb x y && strEqb a' b'
  | _, _ => false
  end.

Fixpoint startsWith (s prefix : str) : bool :=
  match prefix, s with
  | [], _ => true
  | p :: prefix', x :: s' => Ascii.eqb p x && startsWith s' prefix'
  | _ :: _, [] => false
  end.

(** [s.includes(needle)] *)
Fixpoint includes (s needle : str) : bool :=
  startsWith s needle
  || match s with
     | [] => false
     | _ :: s' => includes s' needle
     end.

End Js.

(** ** The table of contents *)

Module Toc.

Inductive Title :=
| PlainTitle (text : string)
| RichTitle (segments : list string).

Record Options := { drawer : bool; tocicon : bool }.

(** A node of the toctree, with the properties [TOCNode] destructures. *)
Inductive TocNode :=
  mkTocNode {
      title : Title;
      slug : option string;
      url : option string;
      children : list TocNode;
      options : option Options
    }.

(** [slug || url], the navigable target of a node. *)
Definition node_target (n : TocNode) : option string :=
  Js.or_else (slug n) (url n).

(** Proper descendants of a node, at any depth. *)
Inductive descendant : TocNode -> TocNode -> Prop :=
| desc_child d n : In d (children n) -> descendant d n
| desc_deeper d c n : In c (children n) -> descendant d c -> descendant d n.

(** Modelled from the spec: the predicate of section 4.2 applied to a
    child, that is, to the child's target and the child's own children;
    see [isActiveTocNode] below, of which this is the recursion. *)
Fixpoint subtreeMatches (a : string) (n : TocNode) : bool :=
  match n with
  | mkTocNode _ s u cs _ =>
      Js.strict_eq (Js.or_else s u) a || existsb (subtreeMatches a) cs
  end.

(** Modelled from the spec: [utils/is-active-toc-node], which [TOCNode.js]
    imports, is missing.  Section 4.2: given the active-section
    identifier, a node's target and its children, true iff the target
    matches exactly or any node in the subtree, at any depth, matches. *)
Definition isActiveTocNode (activeSection : string) (target : option string)
                           (children : list TocNode) : bool :=
  Js.strict_eq target activeSection
  || existsb (subtreeMatches activeSection) children.

(** Modelled from the spec: [utils/is-selected-toc-node], which
    [TOCNode.js] imports, is missing.  Section 4.3: exact match only, no
    descendant search. *)
Definition isSelectedTocNode (activeSection : string) (target : option string) : bool :=
  Js.strict_eq target activeSection.

Definition BASE_NODE_LEVEL : nat := 1.

Section Renderer.

(** The type of the [handleClick] callbacks the caller supplies. *)
Variable Callback : Type.

Record Props :=
  { activeSection : string;
    handleClick : Callback;
    level : nat;
    node : TocNode }.

(** The values [TOCNode] derives from its props on every render. *)
Definition target (p : Props) : option string :=
  Js.or_else (slug (node p)) (url (node p)).

Definition hasChildren (p : Props) : bool :=
  negb (Nat.eqb (length (children (node p))) 0).

Definition isActive (p : Props) : bool :=
  isActiveTocNode (activeSection p) (slug (node p)) (children (node p)).

Definition isSelected (p : Props) : bool :=
  isSelectedTocNode (activeSection p) (slug (node p)).

Definition isDrawer (p : Props) : bool :=
  match options (node p) with
  | Some o => drawer o
  | None => false
  end.

Definition isTocIcon (p : Props) : bool :=
  match options (node p) with
  | Some o => tocicon o
  | None => false
  end.

(** The [onClick] prop handed to a [SideNavItem]: either the closure
    [() => setIsOpen(!isOpen)], which captured [isOpen] when it was
    rendered, or the caller's [handleClick]. *)
Inductive OnClick :=
| SetIsOpenTo (b : bool)
| CallProp (h : Callback).

(** The props of a rendered [SideNavItem]. *)
Record SideNavItem :=
  { item_as_link : bool;          (* as={Link} *)
    item_to : option string;      (* to={target} *)
    item_active : bool;           (* active={isSelected} *)
    item_level : nat;             (* sideNavItemStyling({ level }) *)
    item_onClick : OnClick;
    item_icon : bool;             (* the SyncCloud icon is rendered *)
    item_title : Title }.

Definition toggleItem (p : Props) (isOpen icon : bool) : SideNavItem :=
  {| item_as_link := false;
     item_to := None;
     item_active := false;
     item_level := level p;
     item_onClick := SetIsOpenTo (negb isOpen);
     item_icon := icon;
     item_title := title (node p) |}.

Definition linkItem (p : Props) (icon : bool) : SideNavItem :=
  {| item_as_link := true;
     item_to := target p;
     item_active := isSelected p;
     item_level := level p;
     item_onClick := CallProp (handleClick p);
     item_icon := icon;
     item_title := title (node p) |}.

(** [NodeLink] of [components/Sidenav/TOCNode.js]: four branches. *)
Definition NodeLink (p : Props) (isOpen : bool) : SideNavItem :=
  if isTocIcon p && isDrawer p && hasChildren p then toggleItem p isOpen true
  else if isDrawer p && hasChildren p then toggleItem p isOpen false
  else if isTocIcon p then linkItem p true
  else linkItem p false.

(** [NodeLink] of the revision that imports the [SyncCloud] component:
    two branches, the icon rendered under [isTocIcon &&]. *)
Definition NodeLink_SyncCloud (p : Props) (isOpen : bool) : SideNavItem :=
  if isDrawer p && hasChildren p then toggleItem p isOpen (isTocIcon p)
  else linkItem p (isTocIcon p).

(** What a click on a rendered item causes.  The item's own [onClick]
    runs first; an item rendered [as={Link}] then navigates to [to]. *)
Inductive Effect :=
| SetIsOpen (b : bool)
| Invoke (h : Callback)
| Navigate (to : option string).

Definition runOnClick (h : OnClick) : Effect :=
  match h with
  | SetIsOpenTo b => SetIsOpen b
  | CallProp f => Invoke f
  end.

Definition click (item : SideNavItem) : list Effect :=
  runOnClick (item_onClick item)
  :: (if item_as_link item then [Navigate (item_to item)] else []).

Definition isNavigate (e : Effect) : bool :=
  match e with Navigate _ => true | _ => false end.

Definition isInvoke (e : Effect) : bool :=
  match e with Invoke _ => true | _ => false end.

(** The local state after the effects of a click are applied. *)
Definition applyEffect (isOpen : bool) (e : Effect) : bool :=
  match e with
  | SetIsOpen b => b
  | _ => isOpen
  end.

Definition isOpenAfter (isOpen : bool) (es : list Effect) : bool :=
  fold_left applyEffect es isOpen.

(** *** One component instance over time *)

(** The dependency array [[isActive, isDrawer ? activeSection : null]]. *)
Definition effectDeps (p : Props) : bool * option string :=
  (isActive p, if isDrawer p then Some (activeSection p) else None).

Definition depsEqb (d1 d2 : bool * option string) : bool :=
  Bool.eqb (fst d1) (fst d2)
  && match snd d1, snd d2 with
     | Some a, Some b => a =? b
     | None, None => true
     | _, _ => false
     end.

Record Instance :=
  { inst_props : Props;
    inst_isOpen : bool;
    inst_deps : bool * option string }.

(** First render: [useState(isActive)], then the effect runs once. *)
Definition mount (p : Props) : Instance :=
  {| inst_props := p;
     inst_isOpen := isActive p;
     inst_deps := effectDeps p |}.

Inductive Event :=
| Rerender (activeSection' : string)   (* the parent passes a section *)
| Click.                               (* the user clicks the item *)

Definition withActiveSection (p : Props) (a : string) : Props :=
  {| activeSection := a;
     handleClick := handleClick p;
     level := level p;
     node := node p |}.

Section Instances.

(** The revision of [NodeLink] the instance renders. *)
Variable nodeLink : Props -> bool -> SideNavItem.

Definition step (i : Instance) (e : Event) : Instance :=
  match e with
  | Rerender a =>
      let p := withActiveSection (inst_props i) a in
      {| inst_props := p;
         inst_isOpen :=
           if depsEqb (inst_deps i) (effectDeps p) then inst_isOpen i
           else isActive p;
         inst_deps := effectDeps p |}
  | Click =>
      {| inst_props := inst_props i;
         inst_isOpen :=
           isOpenAfter (inst_isOpen i)
                       (click (nodeLink (inst_props i) (inst_isOpen i)));
         inst_deps := inst_deps i |}
  end.

Inductive reachable (p : Props) : Instance -> Prop :=
| reach_mount : reachable p (mount p)
| reach_step i e : reachable p i -> reachable p (step i e).

(** *** What one render returns *)

Record ChildElement :=
  { child_key : option string;
    child_props : Props }.

Definition childElement (p : Props) (c : TocNode) : ChildElement :=
  {| child_key := Js.or_else (slug c) (url c);
     child_props :=
       {| activeSection := activeSection p;
          handleClick := handleClick p;
          level := level p + 1;
          node := c |} |}.

(** [<><NodeLink /> {isOpen && children.map(...)}</>] *)
Definition TOCNode (p : Props) (isOpen : bool) : SideNavItem * list ChildElement :=
  (nodeLink p isOpen,
   if isOpen then map (childElement p) (children (node p)) else []).

(** The tree a first render of the whole toctree produces: every
    instance is mounted, so every [isOpen] is the node's [isActive]. *)
Inductive Rendered :=
| RNode (item : SideNavItem) (kids : list Rendered).

Fixpoint mountTree (a : string) (h : Callback) (lvl : nat) (n : TocNode) : Rendered :=
  match n with
  | mkTocNode t s u cs o =>
      let p := {| activeSection := a; handleClick := h; level := lvl;
                  node := mkTocNode t s u cs o |} in
      RNode (nodeLink p (isActive p))
            (if isActive p then map (mountTree a h (lvl + 1)) cs else [])
  end.

End Instances.

End Renderer.

Arguments activeSection {Callback}.
Arguments handleClick {Callback}.
Arguments level {Callback}.
Arguments node {Callback}.
Arguments target {Callback}.
Arguments hasChildren {Callback}.
Arguments isActive {Callback}.
Arguments isSelected {Callback}.
Arguments isDrawer {Callback}.
Arguments isTocIcon {Callback}.
Arguments NodeLink {Callback}.
Arguments NodeLink_SyncCloud {Callback}.
Arguments click {Callback}.
Arguments isNavigate {Callback}.
Arguments isInvoke {Callback}.
Arguments isOpenAfter {Callback}.
Arguments SetIsOpen {Callback}.
Arguments Invoke {Callback}.
Arguments Navigate {Callback}.
Arguments mount {Callback}.
Arguments step {Callback}.
Arguments reachable {Callback}.
Arguments withActiveSection {Callback}.
Arguments TOCNode {Callback}.
Arguments childElement {Callback}.
Arguments child_props {Callback}.
Arguments child_key {Callback}.
Arguments inst_isOpen {Callback}.
Arguments inst_props {Callback}.
Arguments inst_deps {Callback}.
Arguments item_as_link {Callback}.
Arguments item_to {Callback}.
Arguments item_active {Callback}.
Arguments item_onClick {Callback}.
Arguments item_level {Callback}.
Arguments effectDeps {Callback}.
Arguments mountTree {Callback}.
Arguments RNode {Callback}.

(** What every instance keeps true: the recorded dependencies are those of
    the last render, and only a drawer with children can hold an [isOpen]
    that differs from [isActive]. *)
Definition synced {Callback : Type} (i : Instance Callback) : Prop :=
  inst_deps i = effectDeps (inst_props i)
  /\ (isDrawer (inst_props i) && hasChildren (inst_props i) = false ->
      inst_isOpen i = isActive (inst_props i)).

(** *** Sample toctrees *)

Definition leaf (s u : option string) : TocNode :=
  {| title := PlainTitle "t"; slug := s; url := u; children := []; options := None |}.

(** [{slug: "a", children: [{slug: "a/b", children: []}]}] *)
Definition sampleChild : TocNode := leaf (Some "a/b") None.

Definition sampleRoot : TocNode :=
  {| title := PlainTitle "t"; slug := Some "a"; url := None;
     children := [sampleChild]; options := None |}.

(** A drawer holding one page. *)
Definition sampleDrawer : TocNode :=
  {| title := PlainTitle "t"; slug := Some "guides"; url := None;
     children := [leaf (Some "guides/one") None];
     options := Some {| drawer := true; tocicon := false |} |}.

Definition propsOf (a : string) (n : TocNode) : Props unit :=
  {| activeSection := a; handleClick := tt; level := BASE_NODE_LEVEL; node := n |}.

End Toc.

(** ** Regular expressions

    The fragment of the ECMAScript pattern language (without the [u] flag)
    that the components rely on: characters, [.], classes, the assertions
    [^] and [$], groups, alternatives and quantifiers, with the flags [g]
    and [i].  A character is a code unit below 256. *)

Module Regex.
Import Js.
Open Scope char_scope.
Open Scope list_scope.

Definition code (c : ascii) : nat := nat_of_ascii c.

Definition inRange (lo hi : nat) (c : ascii) : bool :=
  (lo <=? code c)%nat && (code c <=? hi)%nat.

Definition isDigit (c : ascii) : bool := inRange 48 57 c.
Definition isLower (c : ascii) : bool := inRange 97 122 c.
Definition isUpper (c : ascii) : bool := inRange 65 90 c.
Definition isWordChar (c : ascii) : bool :=
  isDigit c || isLower c || isUpper c || (c =? "_").
Definition isSpace (c : ascii) : bool :=
  inRange 9 13 c || (c =? " ") || (code c =? 160)%nat.
Definition isLineTerminator (c : ascii) : bool :=
  (code c =? 10)%nat || (code c =? 13)%nat.

(** Letters with an upper-case form one code unit long and below 256:
    [a]-[z] and the accented letters 224-254, the division sign apart. *)
Definition hasUpperCase (c : ascii) : bool :=
  isLower c || (inRange 224 254 c && negb (code c =? 247)%nat).

Definition hasLowerCase (c : ascii) : bool :=
  isUpper c || (inRange 192 222 c && negb (code c =? 215)%nat).

(** [Canonicalize] under the [i] flag: the upper-case form. *)
Definition canonicalize (c : ascii) : ascii :=
  if hasUpperCase c then ascii_of_nat (code c - 32) else c.

Definition toLower (c : ascii) : ascii :=
  if hasLowerCase c then ascii_of_nat (code c + 32) else c.

(** [SyntaxCharacter :: ^ $ \ . * + ? ( ) [ ] { } |] *)
Definition isSyntaxCharacter (c : ascii) : bool :=
  (c =? "^") || (c =? "$") || (c =? "\") || (c =? ".") || (c =? "*")
  || (c =? "+") || (c =? "?") || (c =? "(") || (c =? ")") || (c =? "[")
  || (c =? "]") || (c =? "{") || (c =? "}") || (c =? "|").

Inductive EscapeClass := Digit | NotDigit | Word | NotWord | Space | NotSpace.

Inductive ClassItem :=
| CChar (c : ascii)
| CRange (lo hi : ascii)
| CEscape (k : EscapeClass).

Inductive Re :=
| REmpty
| RChar (c : ascii)
| RDot
| RClass (negated : bool) (items : list ClassItem)
| RBol
| REol
| RSeq (r1 r2 : Re)
| RAlt (r1 r2 : Re)
| RRepeat (min : nat) (max : option nat) (greedy : bool) (r : Re)
| RGroup (r : Re).

(** *** Parsing a pattern *)

Definition classEscape (c : ascii) : option EscapeClass :=
  if c =? "d" then Some Digit
  else if c =? "D" then Some NotDigit
  else if c =? "w" then Some Word
  else if c =? "W" then Some NotWord
  else if c =? "s" then Some Space
  else if c =? "S" then Some NotSpace
  else None.

Definition controlEscape (c : ascii) : option ascii :=
  if c =? "t" then Some (ascii_of_nat 9)
  else if c =? "n" then Some (ascii_of_nat 10)
  else if c =? "v" then Some (ascii_of_nat 11)
  else if c =? "f" then Some (ascii_of_nat 12)
  else if c =? "r" then Some (ascii_of_nat 13)
  else None.

(** Escapes whose meaning lies outside the fragment: back references and
    [\0], word boundaries, and the [\c], [\x], [\u], [\k] forms. *)
Definition unsupportedEscape (c : ascii) : bool :=
  isDigit c || (c =? "b") || (c =? "B") || (c =? "c") || (c =? "x")
  || (c =? "u") || (c =? "k").

Inductive Escaped :=
| EChar (c : ascii)
| EClass (k : EscapeClass).

(** The character after a backslash, outside a class. *)
Definition atomEscape (c : ascii) : option Escaped :=
  match classEscape c with
  | Some k => Some (EClass k)
  | None =>
      match controlEscape c with
      | Some x => Some (EChar x)
      | None => if unsupportedEscape c then None else Some (EChar c)
      end
  end.

(** The character after a backslash, inside a class: [\b] is backspace. *)
Definition classAtomEscape (c : ascii) : option Escaped :=
  if c =? "b" then Some (EChar (ascii_of_nat 8)) else atomEscape c.

(** One [ClassAtom] and the rest of the pattern. *)
Definition parseClassAtom (s : str) : option (Escaped * str) :=
  match s with
  | [] => None
  | c :: rest =>
      if c =? "\" then
        match rest with
        | [] => None
        | e :: rest' =>
            match classAtomEscape e with
            | Some a => Some (a, rest')
            | None => None
            end
        end
      else Some (EChar c, rest)
  end.

Definition itemOf (a : Escaped) : ClassItem :=
  match a with
  | EChar c => CChar c
  | EClass k => CEscape k
  end.

(** [ClassRanges], up to the closing bracket. *)
Fixpoint parseClassRanges (fuel : nat) (s : str) : option (list ClassItem * str) :=
  match fuel with
  | 0 => None
  | S fuel' =>
      match s with
      | [] => None
      | c :: rest =>
          if c =? "]" then Some ([], rest)
          else
            match parseClassAtom s with
            | None => None
            | Some (a, rest1) =>
                match rest1 with
                | d :: (x :: _) as rest2 =>
                    if (d =? "-") && negb (x =? "]") then
                      match parseClassAtom rest2 with
                      | None => None
                      | Some (b, rest3) =>
                          match a, b with
                          | EChar lo, EChar hi =>
                              if (code lo <=? code hi)%nat then
                                match parseClassRanges fuel' rest3 with
                                | Some (items, rest4) => Some (CRange lo hi :: items, rest4)
                                | None => None
                                end
                              else None
                          | _, _ =>
                              match parseClassRanges fuel' rest3 with
                              | Some (items, rest4) =>
                                  Some (itemOf a :: CChar "-" :: itemOf b :: items, rest4)
                              | None => None
                              end
                          end
                      end
                    else
                      match parseClassRanges fuel' rest1 with
                      | Some (items, rest4) => Some (itemOf a :: items, rest4)
                      | None => None
                      end
                | _ =>
                    match parseClassRanges fuel' rest1 with
                    | Some (items, rest4) => Some (itemOf a :: items, rest4)
                    | None => None
                    end
                end
            end
      end
  end.

(** A character class, after its opening bracket. *)
Definition parseClass (s : str) : option (Re * str) :=
  match s with
  | c :: rest =>
      if c =? "^" then
        match parseClassRanges (S (length rest)) rest with
        | Some (items, rest') => Some (RClass true items, rest')
        | None => None
        end
      else
        match parseClassRanges (S (length s)) s with
        | Some (items, rest') => Some (RClass false items, rest')
        | None => None
        end
  | [] => None
  end.

(** Decimal digits at the head of the pattern. *)
Fixpoint parseDigits (acc : nat) (s : str) : nat * str :=
  match s with
  | c :: rest => if isDigit c then parseDigits (10 * acc + (code c - 48)) rest else (acc, s)
  | [] => (acc, s)
  end.

(** [{n}], [{n,}] and [{n,m}], after the opening brace. *)
Definition parseBraces (s : str) : option (nat * option nat * str) :=
  match s with
  | c :: _ =>
      if isDigit c then
        let '(n, rest) := parseDigits 0 s in
        match rest with
        | d :: rest1 =>
            if d =? "}" then Some (n, Some n, rest1)
            else if d =? "," then
              match rest1 with
              | e :: rest2 =>
                  if e =? "}" then Some (n, None, rest2)
                  else if isDigit e then
                    let '(m, rest3) := parseDigits 0 rest1 in
                    match rest3 with
                    | f :: rest4 => if f =? "}" then Some (n, Some m, rest4) else None
                    | [] => None
                    end
                  else None
              | [] => None
              end
            else None
        | [] => None
        end
      else None
  | [] => None
  end.

Inductive Quantifier :=
| QNone
| QBad
| QSome (min : nat) (max : option nat).

Definition parseQuantifierPrefix (s : str) : Quantifier * str :=
  match s with
  | c :: rest =>
      if c =? "*" then (QSome 0 None, rest)
      else if c =? "+" then (QSome 1 None, rest)
      else if c =? "?" then (QSome 0 (Some 1), rest)
      else if c =? "{" then
        match parseBraces rest with
        | Some (n, Some m, rest') =>
            if (n <=? m)%nat then (QSome n (Some m), rest') else (QBad, rest')
        | Some (n, None, rest') => (QSome n None, rest')
        | None => (QNone, s)
        end
      else (QNone, s)
  | [] => (QNone, s)
  end.

(** An atom with the quantifier that follows it, if any. *)
Definition quantified (atom : Re) (s : str) : option (Re * str) :=
  match parseQuantifierPrefix s with
  | (QNone, rest) => Some (atom, rest)
  | (QBad, _) => None
  | (QSome n m, rest) =>
      match rest with
      | c :: rest' =>
          if c =? "?" then Some (RRepeat n m false atom, rest')
          else Some (RRepeat n m true atom, rest)
      | [] => Some (RRepeat n m true atom, rest)
      end
  end.

Fixpoint parseDisjunction (fuel : nat) (s : str) {struct fuel} : option (Re * str) :=
  match fuel with
  | 0 => None
  | S fuel' =>
      match parseAlternative fuel' s with
      | Some (r, rest) =>
          match rest with
          | c :: rest' =>
              if c =? "|" then
                match parseDisjunction fuel' rest' with
                | Some (r', rest'') => Some (RAlt r r', rest'')
                | None => None
                end
              else Some (r, rest)
          | [] => Some (r, rest)
          end
      | None => None
      end
  end

with parseAlternative (fuel : nat) (s : str) {struct fuel} : option (Re * str) :=
  match fuel with
  | 0 => None
  | S fuel' =>
      match s with
      | [] => Some (REmpty, s)
      | c :: _ =>
          if (c =? "|") || (c =? ")") then Some (REmpty, s)
          else
            match parseTerm fuel' s with
            | Some (t, rest) =>
                match parseAlternative fuel' rest with
                | Some (r, rest') => Some (RSeq t r, rest')
                | None => None
                end
            | None => None
            end
      end
  end

with parseTerm (fuel : nat) (s : str) {struct fuel} : option (Re * str) :=
  match fuel with
  | 0 => None
  | S fuel' =>
      match s with
      | [] => None
      | c :: rest =>
          if c =? "^" then Some (RBol, rest)
          else if c =? "$" then Some (REol, rest)
          else if c =? "\" then
            match rest with
            | e :: rest' =>
                match atomEscape e with
                | Some (EChar x) => quantified (RChar x) rest'
                | Some (EClass k) => quantified (RClass false [CEscape k]) rest'
                | None => None
                end
            | [] => None
            end
          else if c =? "." then quantified RDot rest
          else if (c =? "*") || (c =? "+") || (c =? "?") || (c =? ")") then None
          else if c =? "(" then
            match rest with
            | q :: rest' =>
                if q =? "?" then
                  match rest' with
                  | k :: rest'' =>
                      if k =? ":" then
                        match parseDisjunction fuel' rest'' with
                        | Some (r, d :: rest3) =>
                            if d =? ")" then quantified (RGroup r) rest3 else None
                        | _ => None
                        end
                      else None
                  | [] => None
                  end
                else
                  match parseDisjunction fuel' rest with
                  | Some (r, d :: rest3) =>
                      if d =? ")" then quantified (RGroup r) rest3 else None
                  | _ => None
                  end
            | [] => None
            end
          else if c =? "[" then
            match parseClass rest with
            | Some (r, rest') => quantified r rest'
            | None => None
            end
          else if c =? "{" then
            match parseBraces rest with
            | Some _ => None
            | None => quantified (RChar c) rest
            end
          else quantified (RChar c) rest
      end
  end.

Definition parsePattern (pattern : str) : option Re :=
  match parseDisjunction (3 * length pattern + 3) pattern with
  | Some (r, []) => Some r
  | _ => None
  end.

(** Does a quantifier start here? *)
Definition quantifierAhead (s : str) : bool :=
  match s with
  | c :: _ => (c =? "*") || (c =? "+") || (c =? "?") || (c =? "{")
  | [] => false
  end.

(** *** Matching *)

Definition charEq (ignoreCase : bool) (c x : ascii) : bool :=
  if ignoreCase then canonicalize c =? canonicalize x else c =? x.

Definition escapeClassMatches (k : EscapeClass) (x : ascii) : bool :=
  match k with
  | Digit => isDigit x
  | NotDigit => negb (isDigit x)
  | Word => isWordChar x
  | NotWord => negb (isWordChar x)
  | Space => isSpace x
  | NotSpace => negb (isSpace x)
  end.

Definition itemMatches (ignoreCase : bool) (item : ClassItem) (x : ascii) : bool :=
  match item with
  | CChar c => charEq ignoreCase c x
  | CRange lo hi =>
      inRange (code lo) (code hi) x
      || (ignoreCase
          && (inRange (code lo) (code hi) (canonicalize x)
              || inRange (code lo) (code hi) (toLower x)))
  | CEscape k => escapeClassMatches k x
  end.

Definition classMatches (ignoreCase : bool) (items : list ClassItem) (x : ascii) : bool :=
  existsb (fun item => itemMatches ignoreCase item x) items.

Definition predOpt (max : option nat) : option nat :=
  match max with
  | Some m => Some (pred m)
  | None => None
  end.

Definition isZero (max : option nat) : bool :=
  match max with
  | Some 0 => true
  | _ => false
  end.

Definition orElse (a b : option nat) : option nat :=
  match a with
  | Some e => Some e
  | None => b
  end.

Definition Continuation := nat -> str -> option nat.

(** [RepeatMatcher]: [m] matches the quantified atom.  Once [min] is
    reached an iteration that consumes nothing is refused, so
    [min + length s] iterations can succeed at most and [fuel] never runs
    out. *)
Fixpoint repeatMatcher (m : nat -> str -> Continuation -> option nat)
         (greedy : bool) (k : Continuation)
         (fuel min : nat) (max : option nat) (i : nat) (s : str)
         {struct fuel} : option nat :=
  match fuel with
  | 0 => None
  | S fuel' =>
      if isZero max then k i s
      else
        let again :=
          m i s (fun i' s' =>
                   if (min =? 0)%nat && (i' =? i)%nat then None
                   else repeatMatcher m greedy k fuel' (pred min) (predOpt max) i' s') in
        if (0 <? min)%nat then again
        else if greedy then orElse again (k i s)
        else orElse (k i s) again
  end.

(** A backtracking matcher in continuation-passing style: [matchRe r i s k]
    matches [r] at index [i], where [s] is the input from [i] on, and
    hands the index and input after the match to [k]; the result is the
    end index of the first overall match in priority order. *)
Fixpoint matchRe (ignoreCase : bool) (r : Re) (i : nat) (s : str)
         (k : Continuation) {struct r} : option nat :=
  match r with
  | REmpty => k i s
  | RChar c =>
      match s with
      | x :: s' => if charEq ignoreCase c x then k (S i) s' else None
      | [] => None
      end
  | RDot =>
      match s with
      | x :: s' => if isLineTerminator x then None else k (S i) s'
      | [] => None
      end
  | RClass negated items =>
      match s with
      | x :: s' =>
          if xorb negated (classMatches ignoreCase items x) then k (S i) s' else None
      | [] => None
      end
  | RBol => if (i =? 0)%nat then k i s else None
  | REol =>
      match s with
      | [] => k i s
      | _ :: _ => None
      end
  | RSeq r1 r2 =>
      matchRe ignoreCase r1 i s (fun i' s' => matchRe ignoreCase r2 i' s' k)
  | RAlt r1 r2 =>
      orElse (matchRe ignoreCase r1 i s k) (matchRe ignoreCase r2 i s k)
  | RGroup r1 => matchRe ignoreCase r1 i s k
  | RRepeat min max greedy r1 =>
      repeatMatcher (matchRe ignoreCase r1) greedy k (S (min + length s)) min max i s
  end.

(** The end index of a match that starts at index [i]. *)
Definition matchAt (ignoreCase : bool) (r : Re) (i : nat) (s : str) : option nat :=
  matchRe ignoreCase r i s (fun e _ => Some e).

(** *** Regular-expression objects *)

Record RegExp :=
  { source : Re;
    global : bool;
    ignoreCase : bool }.

(** The flags [g] and [i], each at most once; other flags lie outside
    the fragment. *)
Fixpoint parseFlags (g i : bool) (flags : str) : option (bool * bool) :=
  match flags with
  | [] => Some (g, i)
  | c :: rest =>
      if c =? "g" then (if g then None else parseFlags true i rest)
      else if c =? "i" then (if i then None else parseFlags g true rest)
      else None
  end.

(** [new RegExp(pattern, flags)]; [None] when the constructor throws a
    [SyntaxError] or the pattern lies outside the fragment. *)
Definition newRegExp (pattern flags : str) : option RegExp :=
  match parsePattern pattern, parseFlags false false flags with
  | Some r, Some (g, i) => Some {| source := r; global := g; ignoreCase := i |}
  | _, _ => None
  end.

(** The first match at or after index [i]: its start and end index. *)
Fixpoint search (rx : RegExp) (i : nat) (s : str) {struct s} : option (nat * nat) :=
  match matchAt (ignoreCase rx) (source rx) i s with
  | Some e => Some (i, e)
  | None =>
      match s with
      | [] => None
      | _ :: s' => search rx (S i) s'
      end
  end.

(** [rx.test(s)] for a regular expression without the [g] flag. *)
Definition test (rx : RegExp) (s : str) : bool :=
  match search rx 0 s with
  | Some _ => true
  | None => false
  end.

(** [GetSubstitution] for a replacement string: [$$] and [$&]. *)
Fixpoint substitute (template matched : str) : str :=
  match template with
  | [] => []
  | c :: rest =>
      match rest with
      | d :: rest' =>
          if (c =? "$") && (d =? "$") then "$" :: substitute rest' matched
          else if (c =? "$") && (d =? "&") then matched ++ substitute rest' matched
          else c :: substitute rest matched
      | [] => [c]
      end
  end.

(** [s.replace(rx, f)] for a global [rx], from index [i] on, where [s] is
    the input from [i] on.  [inside] counts the characters of the
    current match that are still ahead: they were handed to [f] already. *)
Fixpoint replaceAll (rx : RegExp) (f : str -> str) (i inside : nat) (s : str)
         {struct s} : str :=
  match inside with
  | S n =>
      match s with
      | [] => []
      | _ :: s' => replaceAll rx f (S i) n s'
      end
  | 0 =>
      match matchAt (ignoreCase rx) (source rx) i s with
      | Some e =>
          f (firstn (e - i) s)
            ++ match s with
               | [] => []
               | c :: s' =>
                   if (e =? i)%nat then c :: replaceAll rx f (S i) 0 s'
                   else replaceAll rx f (S i) (e - i - 1) s'
               end
      | None =>
          match s with
          | [] => []
          | c :: s' => c :: replaceAll rx f (S i) 0 s'
          end
      end
  end.

(** [s.replace(rx, f)] without the [g] flag: the first match only. *)
Definition replaceFirst (rx : RegExp) (f : str -> str) (s : str) : str :=
  match search rx 0 s with
  | Some (b, e) => firstn b s ++ f (firstn (e - b) (skipn b s)) ++ skipn e s
  | None => s
  end.

(** [String.prototype.replace] with a replacer function. *)
Definition replaceWith (rx : RegExp) (f : str -> str) (s : str) : str :=
  if global rx then replaceAll rx f 0 0 s else replaceFirst rx f s.

(** [String.prototype.replace] with a replacement string. *)
Definition replace (rx : RegExp) (template : str) (s : str) : str :=
  replaceWith rx (substitute template) s.

End Regex.

(** ** The [sanitize-html] package

    The package is a dependency of the site, not part of it.  Its filter is
    modelled on the fragment its parser produces from the text, with the
    default [discard] mode for tags that are not allowed and with style
    attributes parsed into declarations. *)

Module SanitizeHtml.

Import Js Regex.
Open Scope list_scope.

Inductive Attribute :=
| StyleAttr (declarations : list (str * str))   (* style="prop: value; ..." *)
| Attr (name value : str).

Inductive Html :=
| Text (t : str)
| Element (tag : str) (attrs : list Attribute) (kids : list Html).

Record Options :=
  { allowedTags : list str;
    allowedAttributes : list (str * list str);
    allowedStyles : list (str * list (str * list RegExp)) }.

Fixpoint lookup {A : Type} (key : str) (table : list (str * A)) : option A :=
  match table with
  | [] => None
  | (k, v) :: table' => if strEqb k key then Some v else lookup key table'
  end.

Definition member (x : str) (l : list str) : bool := existsb (strEqb x) l.

Definition entries {A : Type} (key : str) (table : list (str * list A)) : list A :=
  match lookup key table with
  | Some l => l
  | None => []
  end.

(** Tags whose text is dropped along with them. *)
Definition nonTextTags : list str :=
  [lit "script"; lit "style"; lit "textarea"; lit "option"].

Definition attributeName (a : Attribute) : str :=
  match a with
  | StyleAttr _ => lit "style"
  | Attr name _ => name
  end.

Definition attributeAllowed (o : Options) (tag name : str) : bool :=
  member name (entries tag (allowedAttributes o))
  || member name (entries (lit "*") (allowedAttributes o)).

(** The style rules selected for a tag: its own merged with those of [*]. *)
Definition selectedRule (o : Options) (tag : str) : option (list (str * list RegExp)) :=
  match lookup tag (allowedStyles o), lookup (lit "*") (allowedStyles o) with
  | Some own, Some any => Some (own ++ any)
  | Some own, None => Some own
  | None, Some any => Some any
  | None, None => None
  end.

Definition declarationAllowed (rule : list (str * list RegExp)) (d : str * str) : bool :=
  existsb (fun entry => strEqb (fst entry) (fst d)
                        && existsb (fun rx => test rx (snd d)) (snd entry))
          rule.

Definition filterCss (o : Options) (tag : str) (ds : list (str * str)) : list (str * str) :=
  match selectedRule o tag with
  | Some rule => filter (declarationAllowed rule) ds
  | None => ds
  end.

Definition filterAttribute (o : Options) (tag : str) (a : Attribute) : list Attribute :=
  if attributeAllowed o tag (attributeName a) then
    match a with
    | StyleAttr ds =>
        match filterCss o tag ds with
        | [] => []
        | ds' => [StyleAttr ds']
        end
    | Attr name value =>
        (* a style attribute that does not parse is deleted *)
        if strEqb name (lit "style") then [] else [a]
    end
  else [].

Fixpoint sanitizeNode (o : Options) (n : Html) : list Html :=
  match n with
  | Text t => [Text t]
  | Element tag attrs kids =>
      if member tag (allowedTags o) then
        [Element tag (flat_map (filterAttribute o tag) attrs)
                 (flat_map (sanitizeNode o) kids)]
      else if member tag nonTextTags then []
      else flat_map (sanitizeNode o) kids
  end.

Definition sanitizeHtml (dirty : list Html) (o : Options) : list Html :=
  flat_map (sanitizeNode o) dirty.

End SanitizeHtml.

(** ** The search result *)

Module Search.

Import Js Regex.
Open Scope char_scope.
Open Scope list_scope.

Definition doubleQuote : ascii := ascii_of_nat 34.

Definition metaCharacterPattern : str := lit "[.*+?^${}()|[\]\\]".

Definition noRegExp : RegExp :=
  {| source := REmpty; global := false; ignoreCase := false |}.

(** The literal [/[.*+?^${}()|[\]\\]/g]. *)
Definition metaCharacters : RegExp :=
  Eval vm_compute in
    match newRegExp metaCharacterPattern (lit "g") with
    | Some rx => rx
    | None => noRegExp
    end.

(** [string.replace(/[.*+?^${}()|[\]\\]/g, '\\$&')] *)
Definition escapeRegExp (s : str) : str :=
  replace metaCharacters (lit "\$&") s.

(** *** What highlighting a literal search term means *)

(** A syntax character is escaped by a backslash before it. *)
Definition escapeChar (c : ascii) : str :=
  if isSyntaxCharacter c then ["\"; c] else [c].

(** The pattern that matches the characters of [s], one after the
    other, and then [r]. *)
Definition literal (s : str) (r : Re) : Re :=
  fold_right (fun c r' => RSeq (RChar c) r') r s.

(** The regular expression of a literal term, with the flags [gi]. *)
Definition literalRegExp (term : str) : RegExp :=
  {| source := literal term REmpty; global := true; ignoreCase := true |}.

(** The regular expression of a literal colour between [^] and [$],
    with the flag [i]. *)
Definition colourRegExp (yellow : str) : RegExp :=
  {| source := RSeq RBol (literal yellow (RSeq REol REmpty));
     global := false; ignoreCase := true |}.

(** [term] occurs at the head of [s], letter case aside. *)
Fixpoint occursAt (term s : str) : bool :=
  match term, s with
  | [], _ => true
  | c :: term', x :: s' => (canonicalize c =? canonicalize x) && occursAt term' s'
  | _ :: _, [] => false
  end.

Definition sameLetters (m term : str) : bool :=
  (length m =? length term)%nat && occursAt term m.

(** A text cut into the occurrences of the term and the characters
    between them. *)
Inductive Segment :=
| Plain (c : ascii)
| Occurrence (m : str).

Definition segmentText (seg : Segment) : str :=
  match seg with
  | Plain c => [c]
  | Occurrence m => m
  end.

(** The cut a scan from the left makes: a character is left plain only
    where no occurrence starts, and an occurrence spells the term. *)
Fixpoint scanned (term : str) (segs : list Segment) : bool :=
  match segs with
  | [] => true
  | Plain c :: rest =>
      negb (occursAt term (c :: flat_map segmentText rest)) && scanned term rest
  | Occurrence m :: rest => sameLetters m term && scanned term rest
  end.

(** An occurrence [m] wrapped in a highlight span of the colour, written
    out character by character. *)
Definition highlightMarkup (colour m : str) : str :=
  lit "<span style=" ++ ["034"] ++ (lit "background-color: " ++ colour ++ lit ";")
      ++ ["034"] ++ lit ">" ++ m ++ lit "</span>".

Definition markSegment (colour : str) (seg : Segment) : str :=
  match seg with
  | Plain c => [c]
  | Occurrence m => highlightMarkup colour m
  end.

(** Letter case, read off the code units: the small letters are [a]-[z]
    and 224-254 without the division sign, and each stands 32 above its
    capital. *)
Definition smallLetter (n : nat) : bool :=
  ((97 <=? n)%nat && (n <=? 122)%nat)
  || ((224 <=? n)%nat && (n <=? 254)%nat && negb (n =? 247)%nat).

(** The same character, letter case aside. *)
Definition caseless (a b : ascii) : bool :=
  (nat_of_ascii a =? nat_of_ascii b)%nat
  || (smallLetter (nat_of_ascii a) && (nat_of_ascii a =? nat_of_ascii b + 32)%nat)
  || (smallLetter (nat_of_ascii b) && (nat_of_ascii b =? nat_of_ascii a + 32)%nat).

(** [term] stands at the head of [s], letter case aside. *)
Fixpoint caselessAt (term s : str) : bool :=
  match term, s with
  | [], _ => true
  | c :: term', x :: s' => caseless c x && caselessAt term' s'
  | _ :: _, [] => false
  end.

(** Every character. *)
Definition allChars : list ascii := map ascii_of_nat (seq 0 256).

Section Palette.

(** [palette.yellow.light2], a constant of the component library. *)
Variable yellow_light2 : str.

Definition SEARCH_MATCH_STYLE : str :=
  lit "background-color: " ++ yellow_light2 ++ lit ";".

(** [(result) => `<span style="${SEARCH_MATCH_STYLE}">${result}</span>`] *)
Definition highlightSpan (result : str) : str :=
  lit "<span style=" ++ [doubleQuote] ++ SEARCH_MATCH_STYLE ++ [doubleQuote]
      ++ lit ">" ++ result ++ lit "</span>".

(** [None] when [new RegExp] throws. *)
Definition highlightSearchTerm (text searchTerm : str) : option str :=
  match newRegExp (escapeRegExp searchTerm) (lit "gi") with
  | Some rx => Some (replaceWith rx highlightSpan text)
  | None => None
  end.

Definition renderSegment (seg : Segment) : str :=
  match seg with
  | Plain c => [c]
  | Occurrence m => highlightSpan m
  end.

Definition previewOptions (highlight : RegExp) : SanitizeHtml.Options :=
  {| SanitizeHtml.allowedTags := [lit "span"];
     SanitizeHtml.allowedAttributes := [(lit "span", [lit "style"])];
     SanitizeHtml.allowedStyles :=
       [(lit "span", [(lit "background-color", [highlight])])] |}.

(** [sanitizeHtml(text, {...})], on the fragment parsed from [text];
    [None] when [new RegExp] throws. *)
Definition sanitizePreviewHtml (text : list SanitizeHtml.Html)
  : option (list SanitizeHtml.Html) :=
  match newRegExp (lit "^" ++ yellow_light2 ++ lit "$") (lit "i") with
  | Some highlight =>
      Some (SanitizeHtml.sanitizeHtml text (previewOptions highlight))
  | None => None
  end.

(** *** The allow-list, read on a sanitized fragment *)

Definition declarationListed (d : str * str) : bool :=
  strEqb (fst d) (lit "background-color") && sameLetters (snd d) yellow_light2.

Definition attributeListed (a : SanitizeHtml.Attribute) : bool :=
  match a with
  | SanitizeHtml.StyleAttr ds => forallb declarationListed ds
  | SanitizeHtml.Attr _ _ => false
  end.

Fixpoint allowListed (n : SanitizeHtml.Html) : bool :=
  match n with
  | SanitizeHtml.Text _ => true
  | SanitizeHtml.Element tag attrs kids =>
      strEqb tag (lit "span")
      && forallb attributeListed attrs
      && forallb allowListed kids
  end.

End Palette.

(** A colour such as [#FFEC9E]: no character of it is a syntax character
    of patterns. *)
Definition plainText (s : str) : bool :=
  forallb (fun c => negb (isSyntaxCharacter c)) s.

Definition sampleColour : str := lit "#FFEC9E".

(** [<b style="color: red">bold</b>
     <span class="x" style="background-color: #ffec9e; color: red">hit</span>
     <script>alert(1)</script>] *)
Definition samplePreview : list SanitizeHtml.Html :=
  [SanitizeHtml.Element (lit "b")
     [SanitizeHtml.StyleAttr [(lit "color", lit "red")]]
     [SanitizeHtml.Text (lit "bold")];
   SanitizeHtml.Element (lit "span")
     [SanitizeHtml.Attr (lit "class") (lit "x");
      SanitizeHtml.StyleAttr [(lit "background-color", lit "#ffec9e");
                              (lit "color", lit "red")]]
     [SanitizeHtml.Text (lit "hit")];
   SanitizeHtml.Element (lit "script") [] [SanitizeHtml.Text (lit "alert(1)")]].

End Search.

(** ** The version dropdown *)

Module Version.

Import Js Regex.
Open Scope char_scope.
Open Scope list_scope.

Record Branch :=
  { gitBranchName : str;
    versionSelectorLabel : option str;
    urlSlug : option str;
    active : bool }.

Record Group :=
  { groupLabel : option str;
    sharedSlugPrefix : option str;
    includedBranches : option (list str) }.

Record SiteMetadata :=
  { parserBranch : str;
    pathPrefix : option str;
    project : str;
    snootyEnv : str }.

(** A call either returns or throws. *)
Inductive Result (A : Type) :=
| Returned (a : A)
| Thrown.

Arguments Returned {A}.
Arguments Thrown {A}.

Definition bind {A B : Type} (r : Result A) (f : A -> Result B) : Result B :=
  match r with
  | Returned a => f a
  | Thrown => Thrown
  end.

Fixpoint mapResult {A B : Type} (f : A -> Result B) (l : list A) : Result (list B) :=
  match l with
  | [] => Returned []
  | a :: l' =>
      bind (f a) (fun b => bind (mapResult f l') (fun bs => Returned (b :: bs)))
  end.

Definition orEmpty (v : option str) : str :=
  match v with
  | Some s => s
  | None => []
  end.

Definition isEmpty (s : str) : bool :=
  match s with
  | [] => true
  | _ :: _ => false
  end.

(** [String(v)], as [includes] coerces its argument. *)
Definition toStr (v : option str) : str :=
  match v with
  | Some s => s
  | None => lit "undefined"
  end.

Definition needsLegacyDropdown (branches : list Branch) : bool :=
  existsb (fun branch => negb (active branch)) branches.

(** The literal [/^\D+/g]. *)
Definition leadingNonDigits : RegExp :=
  Eval vm_compute in
    match newRegExp (lit "^\D+") (lit "g") with
    | Some rx => rx
    | None => {| source := REmpty; global := false; ignoreCase := false |}
    end.

(** The text without its leading characters that are not digits. *)
Fixpoint dropLeadingNonDigits (s : str) : str :=
  match s with
  | [] => []
  | c :: s' => if isDigit c then s else dropLeadingNonDigits s'
  end.

(** The number of leading characters that are not digits. *)
Fixpoint leadingRun (s : str) : nat :=
  match s with
  | [] => 0
  | x :: s' => if isDigit x then 0 else S (leadingRun s')
  end.

(** The matcher of the atom [\D]. *)
Definition nonDigit : nat -> str -> Continuation -> option nat :=
  matchRe false (RClass false [CEscape NotDigit]).

(** The console warnings of the helpers are left out. *)
Definition createVersionLabel (urlSlug gitBranchName : option str) : str :=
  let urlSlug := orEmpty urlSlug in
  let gitBranchName := orEmpty gitBranchName in
  if isEmpty urlSlug && isEmpty gitBranchName then lit "Version Name Unknown"
  else
    let label := if isEmpty urlSlug then gitBranchName else urlSlug in
    let numeric_label := replace leadingNonDigits [] label in
    if isEmpty numeric_label then label else lit "Version " ++ numeric_label.

Definition getUILabel (branch : Branch) : str :=
  match versionSelectorLabel branch with
  | Some l => if isEmpty l then createVersionLabel (urlSlug branch) (Some (gitBranchName branch))
              else l
  | None => createVersionLabel (urlSlug branch) (Some (gitBranchName branch))
  end.

(** [groups.map((g) => g['includedBranches']).flat()]: a group without
    the property contributes [undefined], which no branch name equals. *)
Definition groupedBranchNames (groups : list Group) : list str :=
  flat_map (fun g => match includedBranches g with Some l => l | None => [] end) groups.

Definition getActiveUngroupedBranches (branches : list Branch) (groups : list Group)
  : list Branch :=
  filter (fun b => negb (existsb (strEqb (gitBranchName b)) (groupedBranchNames groups))
                   && active b)
         branches.

(** The [realm] special case at the head of the component.  [groups] is
    optional in the prop types; an array, even an empty one, is truthy,
    so [groups[0]] is read whenever a branch is filtered. *)
Definition realmSdkFilter (meta : SiteMetadata) (slug : str)
           (branches : list Branch) (groups : option (list Group))
  : Result (list Branch * option (list Group)) :=
  if strEqb (project meta) (lit "realm") && includes slug (lit "sdk/") then
    match groups with
    | None => Thrown
    | Some gs =>
        let gs' := filter (fun g => includes slug (toStr (sharedSlugPrefix g))) gs in
        match branches with
        | [] => Returned ([], Some gs')
        | _ :: _ =>
            match gs' with
            | [] => Thrown
            | g0 :: _ =>
                match includedBranches g0 with
                | None => Thrown
                | Some names =>
                    Returned (filter (fun b => existsb (strEqb (gitBranchName b)) names)
                                     branches,
                              Some gs')
                end
            end
        end
    end
  else Returned (branches, groups).

Record OptionElement :=
  { option_key : str;
    option_value : str;
    option_href : str;
    option_label : str }.

Inductive SelectChild :=
| SOption (o : OptionElement)
| SOptionGroup (label : option str) (options : list OptionElement).

(** The [StyledSelect]: [onChange={navigate}], [value={parserBranch}]. *)
Record Select :=
  { select_value : str;
    select_onChange : str -> str;        (* the destination [navigate] requests *)
    select_children : list SelectChild }.

Inductive Rendered :=
| RNull
| RSelect (s : Select).

Inductive Console :=
| Warn (message : str)
| Log (message : str).

Fixpoint lastIndexOf (c : ascii) (s : str) : option nat :=
  match s with
  | [] => None
  | x :: s' =>
      match lastIndexOf c s' with
      | Some i => Some (S i)
      | None => if x =? c then Some 0 else None
      end
  end.

Section Component.

(** Helpers imported from [utils/], taken as they come. *)
Variable generatePathPrefix : SiteMetadata -> str.
Variable getLegacyProjectURL : str -> str.
Variable normalizePath : str -> str.

(** [groupBranches] is bound nowhere in the file: [None] is the unbound
    identifier, whose call throws; [Some f] a binding of the
    environment. *)
Variable groupBranches : option (list Branch -> option (list Group) -> str).

(** [process.env.GATSBY_FEATURE_FLAG_SDK_VERSION_DROPDOWN], as a truth
    value. *)
Variable FEATURE_FLAG_SDK_VERSION_DROPDOWN : bool.

Variable meta : SiteMetadata.   (* useSiteMetadata() *)

Section Render.

Variable slug : str.
Variable branches : list Branch.
Variable groups : list Group.

Definition generatePrefix (version : str) : str :=
  if strEqb (project meta) (lit "docs") && strEqb (snootyEnv meta) (lit "production")
  then "/" :: version
  else
    match pathPrefix meta with
    | Some prefix =>
        if isEmpty prefix
        then generatePathPrefix
               {| parserBranch := version; pathPrefix := pathPrefix meta;
                  project := project meta; snootyEnv := snootyEnv meta |}
        else
          let noVersion :=
            match lastIndexOf "/" prefix with
            | Some i => firstn i prefix
            | None => []
            end in
          noVersion ++ "/" :: version
    | None =>
        generatePathPrefix
          {| parserBranch := version; pathPrefix := pathPrefix meta;
             project := project meta; snootyEnv := snootyEnv meta |}
    end.

Definition getUrl (optionValue : str) : str :=
  if strEqb optionValue (lit "legacy") then getLegacyProjectURL (project meta)
  else normalizePath (slug ++ "/" :: generatePrefix optionValue).

(** [navigate]: the destination handed to [reachNavigate]. *)
Definition navigate (optionValue : str) : str := getUrl optionValue.

(** [null] when no branch or more than one carries the name. *)
Definition findBranch (branchName : str) : option Branch :=
  match filter (fun b => strEqb (gitBranchName b) branchName) branches with
  | [b] => Some b
  | _ => None
  end.

(** [createOption(null)] throws on [branch['active']]. *)
Definition createOption (branch : option Branch) : Result OptionElement :=
  match branch with
  | None => Thrown
  | Some b =>
      let UIlabel := getUILabel b in
      let branchSlug :=
        if isEmpty (orEmpty (urlSlug b)) then gitBranchName b
        else orEmpty (urlSlug b) in
      Returned {| option_key := branchSlug;
                  option_value := UIlabel;
                  option_href := getUrl branchSlug;
                  option_label := UIlabel |}
  end.

Definition legacyOption : OptionElement :=
  {| option_key := [];
     option_value := lit "legacy";
     option_href := getUrl (lit "legacy");
     option_label := lit "Legacy Docs" |}.

(** The [StyledSelect] the component returns for two branches or
    more. *)
Definition renderSelect : Result Rendered :=
  bind (mapResult (fun b => createOption (Some b))
                  (getActiveUngroupedBranches branches groups))
       (fun ungrouped =>
          bind (if FEATURE_FLAG_SDK_VERSION_DROPDOWN then
                  mapResult
                    (fun g =>
                       bind (mapResult (fun bn => createOption (findBranch bn))
                                       (match includedBranches g with
                                        | Some l => l
                                        | None => []
                                        end))
                            (fun os => Returned (SOptionGroup (groupLabel g) os)))
                    groups
                else Returned [])
               (fun grouped =>
                  Returned
                    (RSelect
                       {| select_value := parserBranch meta;
                          select_onChange := navigate;
                          select_children :=
                            map SOption ungrouped ++ grouped
                                ++ (if needsLegacyDropdown branches
                                    then [SOption legacyOption] else []) |}))).

End Render.

Definition insufficientBranches : str :=
  lit "Insufficient branches supplied to VersionDropdown; expected 2 or more".

(** The component: what it returns and what it writes to the console. *)
Definition VersionDropdown (branches : list Branch) (groups : option (list Group))
           (slug : str) : Result (Rendered * list Console) :=
  bind (realmSdkFilter meta slug branches groups)
       (fun '(branches, groups) =>
          if (length branches <? 2)%nat
          then Returned (RNull, [Warn insufficientBranches])
          else
            match groupBranches with
            | None => Thrown
            | Some f =>
                match groups with
                | None => Thrown      (* [groups.map] on [undefined] *)
                | Some gs =>
                    bind (renderSelect slug branches gs)
                         (fun r => Returned (r, [Log (f branches groups)]))
                end
            end).

End Component.

(** *** A sample site *)

Definition sampleMetadata : SiteMetadata :=
  {| parserBranch := lit "master"; pathPrefix := None;
     project := lit "realm"; snootyEnv := lit "production" |}.

Definition sampleBranch (name : string) : Branch :=
  {| gitBranchName := lit name; versionSelectorLabel := None;
     urlSlug := None; active := true |}.

Definition sampleGroup : Group :=
  {| groupLabel := Some (lit "Android SDK");
     sharedSlugPrefix := Some (lit "sdk/android");
     includedBranches := Some [lit "android-v1.0"] |}.

End Version.

(** ** The feedback emoji *)

Module Feedback.

Import Version.
Open Scope string_scope.

(** [{ character, copy }]; the character is given by its code point. *)
Record EmojiInfo :=
  { character : N;
    copy : string }.

Definition getEmojiInfo (sentiment : string) : option EmojiInfo :=
  if sentiment =? "happy" then Some {| character := 0x1F642%N; copy := "Helpful" |}
  else if sentiment =? "upset" then Some {| character := 0x1F61E%N; copy := "Unhelpful" |}
  else if sentiment =? "suggesting" then Some {| character := 0x1F4A1%N; copy := "Idea" |}
  else None.

(** [!props.isActive] on a state that starts [undefined]. *)
Definition falsy (isActive : option bool) : bool :=
  match isActive with
  | Some true => false
  | _ => true
  end.

Inductive Element :=
| SentimentEmoji (character : N)
| CommentEmoji (character : N) (copy : string)
               (dimmed : bool)        (* opacity: 0.5 on the character *)
               (copyHidden : bool)    (* display: none on the copy *)
               (onClick : string).    (* setActiveSentiment(sentiment) *)

(** [const { character, copy } = getEmojiInfo(sentiment)] throws on
    [undefined], as does [getEmojiInfo(sentiment).character]. *)
Definition renderCommentEmoji (isActive : option bool) (sentiment : string)
  : Result Element :=
  match getEmojiInfo sentiment with
  | Some info =>
      Returned (CommentEmoji (character info) (copy info)
                             (falsy isActive) (falsy isActive) sentiment)
  | None => Thrown
  end.

(** What rendering the result of [emojiFactory] gives in the two views,
    the [<CommentEmoji />] element rendered in place.  On any other page
    the switch falls through and the function returns [undefined], here
    [None]; what the framework makes of that return is left open. *)
Definition emojiFactory (sentiment currPage : string) (isActive : option bool)
  : Result (option Element) :=
  if currPage =? "sentimentView" then
    match getEmojiInfo sentiment with
    | Some info => Returned (Some (SentimentEmoji (character info)))
    | None => Thrown
    end
  else if currPage =? "commentView" then
    bind (renderCommentEmoji isActive sentiment) (fun e => Returned (Some e))
  else Returned None.

(** [activeSentiment == sentiment], where the context may hold no
    sentiment yet. *)
Definition looseEq (activeSentiment : option string) (sentiment : string) : bool :=
  match activeSentiment with
  | Some a => a =? sentiment
  | None => false
  end.

(** An [Emoji] instance: its props, the context value it last saw and
    its [isActive] state, [undefined] until the first effect. *)
Record Instance :=
  { sentiment : string;
    currPage : string;
    activeSentiment : option string;
    isActive : option bool }.

(** The first render, before any effect has run. *)
Definition firstRender (sentiment currPage : string) (activeSentiment : option string)
  : Instance :=
  {| sentiment := sentiment; currPage := currPage;
     activeSentiment := activeSentiment; isActive := None |}.

(** [useEffect(() => setIsActive(activeSentiment == sentiment),
    [activeSentiment, sentiment])], once the dependencies are known to
    have changed or on mount. *)
Definition runEffect (i : Instance) : Instance :=
  {| sentiment := sentiment i; currPage := currPage i;
     activeSentiment := activeSentiment i;
     isActive := Some (looseEq (activeSentiment i) (sentiment i)) |}.

Definition sameDeps (a b : option string) : bool :=
  match a, b with
  | Some x, Some y => x =? y
  | None, None => true
  | _, _ => false
  end.

(** The context hands a new [activeSentiment] to a mounted instance. *)
Definition contextChanged (i : Instance) (activeSentiment' : option string) : Instance :=
  let rendered :=
    {| sentiment := sentiment i; currPage := currPage i;
       activeSentiment := activeSentiment'; isActive := isActive i |} in
  if sameDeps (activeSentiment i) activeSentiment' then rendered else runEffect rendered.

Definition mounted (sentiment currPage : string) (activeSentiment : option string)
  : Instance :=
  runEffect (firstRender sentiment currPage activeSentiment).

Inductive reachable (sentiment currPage : string) : Instance -> Prop :=
| reach_mounted a : reachable sentiment currPage (mounted sentiment currPage a)
| reach_changed i a :
    reachable sentiment currPage i ->
    reachable sentiment currPage (contextChanged i a).


End Feedback.

(** ** Reading a rendered toctree and a preview *)

Module Reading.

Import Js Regex Search SanitizeHtml Toc.
Open Scope list_scope.

(** Every item of a rendered tree carries the level of its depth. *)
Fixpoint levelsFrom {Callback : Type} (depth : nat) (r : Rendered Callback) : bool :=
  match r with
  | RNode item kids =>
      Nat.eqb (item_level item) depth && forallb (levelsFrom (S depth)) kids
  end.

(** The group's prefix occurs in the slug. *)
Definition sharesPrefix (slug : str) (g : Version.Group) : bool :=
  includes slug (Version.toStr (Version.sharedSlugPrefix g)).

(** [term] occurs somewhere in [s], letter case aside. *)
Fixpoint occursIn (term s : str) : bool :=
  occursAt term s
  || match s with
     | [] => false
     | _ :: s' => occursIn term s'
     end.

(** The text of a fragment, markup aside. *)
Fixpoint textContent (n : Html) : str :=
  match n with
  | Text t => t
  | Element _ _ kids => flat_map textContent kids
  end.

(** The text of a fragment outside [script], [style], [textarea] and
    [option] elements; a [span] is read through. *)
Fixpoint shownText (n : Html) : str :=
  match n with
  | Text t => t
  | Element tag _ kids =>
      if strEqb tag (lit "span") then flat_map shownText kids
      else if member tag nonTextTags then []
      else flat_map shownText kids
  end.

(** A style attribute holds a declaration at least. *)
Definition styled (a : Attribute) : bool :=
  match a with
  | StyleAttr [] => false
  | _ => true
  end.

Fixpoint everyStyleFilled (n : Html) : bool :=
  match n with
  | Text _ => true
  | Element _ attrs kids => forallb styled attrs && forallb everyStyleFilled kids
  end.

(** [the <span style="background-color: #ffec9e">Term</span> again] *)
Definition sampleHighlight : list Html :=
  [Text (lit "the ");
   Element (lit "span") [StyleAttr [(lit "background-color", lit "#ffec9e")]]
           [Text (lit "Term")];
   Text (lit " again")].

End Reading.

(** * Properties of the table of contents *)

Module TocFacts.

Import Toc.

Lemma strict_eq_true (v : option string) (a : string) :
  Js.strict_eq v a = true <-> v = Some a.
Proof.
  destruct v as [t|]; simpl.
  - rewrite String.eqb_eq. split; [intros ->; reflexivity | intros [= ->]; reflexivity].
  - split; discriminate.
Qed.

(** For a section that is not empty and not the url of the node, the
    target [slug || url] is the section exactly when the slug is. *)
Lemma target_is_slug (s u : option string) (a : string) :
  a <> "" -> u <> Some a ->
  (s = Some a <-> Js.or_else s u = Some a).
Proof.
  intros Ha Hu. unfold Js.or_else, Js.truthy.
  destruct s as [t |]; [| split; [discriminate | intros H; contradiction]].
  destruct (t =? "") eqn:E; cbn [negb]; [| reflexivity].
  apply String.eqb_eq in E. subst t.
  split; [intros [= H]; subst a; contradiction | intros H; contradiction].
Qed.

(** Induction on a toctree, with the hypothesis on every child. *)
Lemma TocNode_tree_ind (P : TocNode -> Prop) :
  (forall t s u cs o, Forall P cs -> P (mkTocNode t s u cs o)) ->
  forall n, P n.
Proof.
  intros step.
  fix IH 1.
  intros [t s u cs o]. apply step.
  induction cs as [|c cs IHcs]; constructor; [apply IH | exact IHcs].
Qed.

Lemma subtreeMatches_unfold (a : string) (n : TocNode) :
  subtreeMatches a n
  = Js.strict_eq (node_target n) a || existsb (subtreeMatches a) (children n).
Proof. destruct n; reflexivity. Qed.

(** The predicate calls itself on every child. *)
Lemma isActiveTocNode_unfold (a : string) (t : option string) (cs : list TocNode) :
  isActiveTocNode a t cs
  = Js.strict_eq t a
    || existsb (fun c => isActiveTocNode a (node_target c) (children c)) cs.
Proof.
  unfold isActiveTocNode at 1. f_equal.
  induction cs as [|c cs IH]; [reflexivity |].
  cbn [existsb]. rewrite IH, subtreeMatches_unfold. reflexivity.
Qed.

Lemma subtreeMatches_iff (a : string) (n : TocNode) :
  subtreeMatches a n = true <->
  node_target n = Some a \/ exists d, descendant d n /\ node_target d = Some a.
Proof.
  induction n as [t s u cs o IH] using TocNode_tree_ind.
  rewrite subtreeMatches_unfold, orb_true_iff, strict_eq_true, existsb_exists.
  rewrite Forall_forall in IH. simpl children.
  split.
  - intros [H | (c & Hc & Hm)]; [left; exact H | right].
    destruct (proj1 (IH c Hc) Hm) as [Hhere | (d & Hd & Htd)].
    + exists c. split; [apply desc_child; exact Hc | exact Hhere].
    + exists d. split; [eapply desc_deeper; [exact Hc | exact Hd] | exact Htd].
  - intros [H | (d & Hd & Htd)]; [left; exact H | right].
    inversion Hd as [d' n' Hin | d' c n' Hin Hdc]; subst; simpl in Hin.
    + exists d. split; [exact Hin |]. apply IH; [exact Hin | left; exact Htd].
    + exists c. split; [exact Hin |]. apply IH; [exact Hin |].
      right. exists d. split; assumption.
Qed.

Lemma existsb_subtree_iff (a : string) (n : TocNode) :
  existsb (subtreeMatches a) (children n) = true <->
  exists d, descendant d n /\ node_target d = Some a.
Proof.
  rewrite existsb_exists. split.
  - intros (c & Hc & Hm). apply subtreeMatches_iff in Hm.
    destruct Hm as [Hhere | (d & Hd & Htd)].
    + exists c. split; [apply desc_child; exact Hc | exact Hhere].
    + exists d. split; [eapply desc_deeper; [exact Hc | exact Hd] | exact Htd].
  - intros (d & Hd & Htd).
    inversion Hd as [d' n' Hin | d' c n' Hin Hdc]; subst.
    + exists d. split; [exact Hin |]. apply subtreeMatches_iff. left; exact Htd.
    + exists c. split; [exact Hin |]. apply subtreeMatches_iff.
      right. exists d. split; assumption.
Qed.

Lemma NodeLink_revisions_agree {Callback : Type} (p : Props Callback) (isOpen : bool) :
  NodeLink_SyncCloud p isOpen = NodeLink p isOpen.
Proof.
  unfold NodeLink, NodeLink_SyncCloud.
  destruct (isTocIcon p), (isDrawer p), (hasChildren p); reflexivity.
Qed.

Lemma click_link_keeps_isOpen {Callback : Type} (p : Props Callback) (isOpen : bool) :
  isDrawer p && hasChildren p = false ->
  isOpenAfter isOpen (click (NodeLink p isOpen)) = isOpen.
Proof.
  intros H. unfold NodeLink. rewrite <- andb_assoc, H, andb_false_r.
  destruct (isTocIcon p); reflexivity.
Qed.

Lemma depsEqb_true {Callback : Type} (p q : Props Callback) :
  depsEqb (effectDeps p) (effectDeps q) = true ->
  isActive p = isActive q
  /\ (isDrawer p = true -> activeSection p = activeSection q).
Proof.
  unfold depsEqb, effectDeps; simpl. intros H.
  apply andb_true_iff in H. destruct H as [Ha Hs].
  split; [apply eqb_prop; exact Ha |].
  intros Hd. rewrite Hd in Hs.
  destruct (isDrawer q); [apply String.eqb_eq; exact Hs | discriminate].
Qed.

Lemma reachable_synced {Callback : Type} (p0 : Props Callback) (i : Instance Callback) :
  reachable NodeLink p0 i -> synced i.
Proof.
  induction 1 as [| i e _ [Hdeps Hopen]].
  - split; reflexivity.
  - destruct e as [a |]; split;
      cbn [step inst_isOpen inst_props inst_deps]; try reflexivity.
    + intros Hnd. change (isDrawer (withActiveSection (inst_props i) a))
        with (isDrawer (inst_props i)) in Hnd.
      change (hasChildren (withActiveSection (inst_props i) a))
        with (hasChildren (inst_props i)) in Hnd.
      destruct (depsEqb _ _) eqn:E; [| reflexivity].
      rewrite Hdeps in E. apply depsEqb_true in E. destruct E as [E _].
      rewrite <- E. apply Hopen. exact Hnd.
    + exact Hdeps.
    + intros Hnd. rewrite click_link_keeps_isOpen by exact Hnd.
      apply Hopen. exact Hnd.
Qed.

Lemma step_revisions_agree {Callback : Type} (i : Instance Callback) (e : Event) :
  step NodeLink_SyncCloud i e = step NodeLink i e.
Proof. destruct e; simpl; [reflexivity |]. rewrite NodeLink_revisions_agree. reflexivity. Qed.

Lemma reachable_revisions_agree {Callback : Type} (p0 : Props Callback) (i : Instance Callback) :
  reachable NodeLink_SyncCloud p0 i -> reachable NodeLink p0 i.
Proof.
  induction 1 as [| i e _ IH]; [constructor |].
  rewrite step_revisions_agree. constructor. exact IH.
Qed.

Lemma rerender_resets {Callback : Type} (i : Instance Callback) (a : string)
      (nl : Props Callback -> bool -> SideNavItem Callback) :
  synced i ->
  a <> activeSection (inst_props i) ->
  inst_isOpen (step nl i (Rerender a)) = isActive (withActiveSection (inst_props i) a).
Proof.
  intros [Hdeps Hopen] Hne. cbn [step inst_isOpen inst_props inst_deps].
  destruct (depsEqb _ _) eqn:E; [| reflexivity].
  rewrite Hdeps in E. apply depsEqb_true in E. destruct E as [Eact Esec].
  rewrite <- Eact. apply Hopen.
  destruct (isDrawer (inst_props i)); [| reflexivity].
  exfalso. apply Hne. symmetry. apply (Esec eq_refl).
Qed.

End TocFacts.

Module TocClaims.

Import Toc TocFacts.

(** C1: the active section being the slug of a page, that is, not empty
    and not the url of the node's external link, [isActive] is true
    exactly when the node's target is the active section or some
    descendant, at any depth, has the active section as its target; it
    is false otherwise. *)
Theorem C1_isActive_full_subtree {Callback : Type} (p : Props Callback) :
  activeSection p <> "" ->
  url (node p) <> Some (activeSection p) ->
  (isActive p = true <->
   target p = Some (activeSection p)
   \/ exists d, descendant d (node p) /\ node_target d = Some (activeSection p)).
Proof.
  intros Hsection Hurl. unfold isActive, isActiveTocNode, target.
  rewrite orb_true_iff, strict_eq_true, existsb_subtree_iff.
  rewrite (target_is_slug _ _ _ Hsection Hurl). reflexivity.
Qed.

Lemma C1_isActive_full_subtree_witness :
  isActive (propsOf "a/b" sampleRoot) = true <->
  target (propsOf "a/b" sampleRoot) = Some "a/b"
  \/ exists d, descendant d sampleRoot /\ node_target d = Some "a/b".
Proof.
  apply (@C1_isActive_full_subtree unit (propsOf "a/b" sampleRoot)); discriminate.
Defined.

(** C2: on a drawer node with children, a click flips [isOpen] and causes
    neither a navigation nor a call of [handleClick], whatever the active
    section is, in both revisions of [NodeLink]. *)
Theorem C2_drawer_click_toggles {Callback : Type} (p : Props Callback) (isOpen : bool) :
  isDrawer p = true ->
  children (node p) <> [] ->
  (click (NodeLink p isOpen) = [SetIsOpen (negb isOpen)]
   /\ click (NodeLink_SyncCloud p isOpen) = [SetIsOpen (negb isOpen)])
  /\ (isOpenAfter isOpen (click (NodeLink p isOpen)) = negb isOpen
      /\ isOpenAfter isOpen (click (NodeLink_SyncCloud p isOpen)) = negb isOpen)
  /\ (existsb isNavigate (click (NodeLink p isOpen)) = false
      /\ existsb isNavigate (click (NodeLink_SyncCloud p isOpen)) = false)
  /\ (existsb isInvoke (click (NodeLink p isOpen)) = false
      /\ existsb isInvoke (click (NodeLink_SyncCloud p isOpen)) = false).
Proof.
  intros Hd Hc.
  assert (Hh : hasChildren p = true).
  { unfold hasChildren. destruct (children (node p)); [contradiction | reflexivity]. }
  unfold NodeLink, NodeLink_SyncCloud. rewrite Hd, Hh.
  destruct (isTocIcon p); simpl; repeat split; reflexivity.
Qed.

Lemma C2_drawer_click_toggles_witness :
  click (NodeLink (propsOf "elsewhere" sampleDrawer) false) = [SetIsOpen true]
  /\ isOpenAfter true (click (NodeLink (propsOf "elsewhere" sampleDrawer) true)) = false.
Proof.
  split.
  - apply (@C2_drawer_click_toggles unit (propsOf "elsewhere" sampleDrawer) false);
      [reflexivity | discriminate].
  - apply (@C2_drawer_click_toggles unit (propsOf "elsewhere" sampleDrawer) true);
      [reflexivity | discriminate].
Defined.



(** C4: [isOpen] starts as [isActive], and after a render with a changed
    active section it is the [isActive] computed from the new section,
    whatever clicks and renders came before. *)
Theorem C4_isOpen_follows_activeSection {Callback : Type}
        (nl : Props Callback -> bool -> SideNavItem Callback)
        (p0 : Props Callback) (i : Instance Callback) (a : string) :
  nl = NodeLink \/ nl = NodeLink_SyncCloud ->
  reachable nl p0 i ->
  a <> activeSection (inst_props i) ->
  inst_isOpen (mount p0) = isActive p0
  /\ inst_isOpen (step nl i (Rerender a))
     = isActive (withActiveSection (inst_props i) a).
Proof.
  intros Hnl Hreach Hne. split; [reflexivity |].
  apply rerender_resets; [| exact Hne].
  destruct Hnl as [-> | ->].
  - eapply reachable_synced; exact Hreach.
  - eapply reachable_synced, reachable_revisions_agree; exact Hreach.
Qed.

Lemma C4_isOpen_follows_activeSection_witness :
  inst_isOpen (step NodeLink (mount (propsOf "elsewhere" sampleDrawer)) Click) = true
  /\ inst_isOpen (step NodeLink
                    (step NodeLink (mount (propsOf "elsewhere" sampleDrawer)) Click)
                    (Rerender "guides/two")) = false.
Proof.
  split; [reflexivity |].
  apply (C4_isOpen_follows_activeSection NodeLink
           (propsOf "elsewhere" sampleDrawer)
           (step NodeLink (mount (propsOf "elsewhere" sampleDrawer)) Click)
           "guides/two").
  - left; reflexivity.
  - apply reach_step, reach_mount.
  - discriminate.
Defined.

(** C5: the child elements of a render are those of [children], in order,
    when [isOpen] holds and none otherwise; each carries [level + 1] and
    the parent's [activeSection] and [handleClick]; a first render of the
    tree descends this way at every depth. *)
Theorem C5_children_rendered_when_open {Callback : Type}
        (nl : Props Callback -> bool -> SideNavItem Callback)
        (p : Props Callback) (isOpen : bool) :
  map (fun ce => node (child_props ce)) (snd (TOCNode nl p isOpen))
  = (if isOpen then children (node p) else [])
  /\ snd (TOCNode nl p false) = []
  /\ (snd (TOCNode nl p isOpen) <> [] <-> isOpen = true /\ children (node p) <> [])
  /\ Forall (fun ce => level (child_props ce) = level p + 1
                       /\ activeSection (child_props ce) = activeSection p
                       /\ handleClick (child_props ce) = handleClick p)
            (snd (TOCNode nl p isOpen))
  /\ mountTree nl (activeSection p) (handleClick p) (level p) (node p)
     = RNode (fst (TOCNode nl p (isActive p)))
             (map (fun ce => mountTree nl (activeSection (child_props ce))
                                       (handleClick (child_props ce))
                                       (level (child_props ce))
                                       (node (child_props ce)))
                  (snd (TOCNode nl p (isActive p)))).
Proof.
  unfold TOCNode; cbn [fst snd].
  split; [| split; [reflexivity |]; split; [split |]; [ | | split]].
  - destruct isOpen; [| reflexivity].
    rewrite map_map. simpl. apply map_id.
  - destruct isOpen; [| intros H; contradiction].
    intros H. split; [reflexivity |].
    intros E. rewrite E in H. apply H. reflexivity.
  - intros [-> Hc] E. apply map_eq_nil in E. contradiction.
  - destruct isOpen; [| constructor].
    apply Forall_forall. intros ce Hin. apply in_map_iff in Hin.
    destruct Hin as (c & <- & _). simpl. repeat split.
  - destruct p as [a h lvl [t s u cs o]]. simpl.
    f_equal. destruct (isActive _); [| reflexivity].
    rewrite map_map. reflexivity.
Qed.

(** C6: the active section being the slug of a page, that is, not empty
    and not the url of the node's external link, [isSelected] is true
    exactly when the node's target is the active section, whatever its
    descendants are; on the tree [{target: "a", children: [{target:
    "a/b"}]}] with active section ["a/b"] the root is active and not
    selected, the child active and selected. *)
Theorem C6_isSelected_exact_match {Callback : Type} (p : Props Callback) :
  activeSection p <> "" ->
  url (node p) <> Some (activeSection p) ->
  (isSelected p = true <-> target p = Some (activeSection p))
  /\ (target (propsOf "a/b" sampleRoot) = Some "a"
      /\ map node_target (children sampleRoot) = [Some "a/b"])
  /\ (isActive (propsOf "a/b" sampleRoot) = true
      /\ isSelected (propsOf "a/b" sampleRoot) = false)
  /\ (isActive (propsOf "a/b" sampleChild) = true
      /\ isSelected (propsOf "a/b" sampleChild) = true).
Proof.
  intros Hsection Hurl. split; [| repeat split].
  unfold isSelected, isSelectedTocNode, target.
  rewrite strict_eq_true, (target_is_slug _ _ _ Hsection Hurl). reflexivity.
Qed.

Lemma C6_isSelected_exact_match_witness :
  isSelected (propsOf "a/b" sampleChild) = true <->
  target (propsOf "a/b" sampleChild) = Some "a/b".
Proof.
  apply (@C6_isSelected_exact_match unit (propsOf "a/b" sampleChild)); discriminate.
Defined.

End TocClaims.

(** * Properties of the regular expressions the components build *)

Module RegexFacts.

Import Js Regex Version.
Open Scope char_scope.
Open Scope list_scope.

Lemma strEqb_eq (a b : str) : strEqb a b = true <-> a = b.
Proof.
  revert b. induction a as [|x a IH]; intros [|y b]; simpl;
    try (split; [discriminate | discriminate]); [tauto |].
  rewrite andb_true_iff, Ascii.eqb_eq, IH.
  split; [intros [-> ->]; reflexivity | intros [= -> ->]; split; reflexivity].
Qed.

Lemma strEqb_refl (a : str) : strEqb a a = true.
Proof. apply strEqb_eq. reflexivity. Qed.

(** ** Global replacement *)

Section Replace.

Variable rx : RegExp.
Variable f : str -> str.

Lemma replaceAll_inside (n i : nat) (s : str) :
  n <= length s ->
  replaceAll rx f i n s = replaceAll rx f (i + n) 0 (skipn n s).
Proof.
  revert i s. induction n as [|n IH]; intros i s Hn.
  - rewrite Nat.add_0_r. reflexivity.
  - destruct s as [|x s]; simpl in Hn; [lia |].
    cbn [replaceAll skipn]. rewrite IH by lia. f_equal. lia.
Qed.

Lemma replaceAll_nil_inside (n i : nat) : replaceAll rx f i (S n) [] = [].
Proof. reflexivity. Qed.

(** A match of one character or more is replaced and the scan goes on
    behind it. *)
Lemma replaceAll_match (i e : nat) (s : str) :
  matchAt (ignoreCase rx) (source rx) i s = Some e ->
  i < e -> e - i <= length s ->
  replaceAll rx f i 0 s
  = f (firstn (e - i) s) ++ replaceAll rx f e 0 (skipn (e - i) s).
Proof.
  intros Hm Hlt Hlen.
  destruct s as [|x s]; [simpl in Hlen; lia |].
  cbn [replaceAll]. rewrite Hm.
  replace (e =? i)%nat with false by (symmetry; apply Nat.eqb_neq; lia).
  f_equal. simpl in Hlen.
  rewrite replaceAll_inside by lia.
  replace (S i + (e - i - 1)) with e by lia.
  replace (e - i) with (S (e - i - 1)) at 2 by lia.
  reflexivity.
Qed.

Lemma replaceAll_no_match (i : nat) (x : ascii) (s : str) :
  matchAt (ignoreCase rx) (source rx) i (x :: s) = None ->
  replaceAll rx f i 0 (x :: s) = x :: replaceAll rx f (S i) 0 s.
Proof. intros Hm. cbn [replaceAll]. rewrite Hm. reflexivity. Qed.

(** Where the pattern matches nowhere, the text is copied. *)
Lemma replaceAll_copies (s : str) (i : nat) :
  (forall j t, i <= j -> matchAt (ignoreCase rx) (source rx) j t = None) ->
  replaceAll rx f i 0 s = s.
Proof.
  revert i. induction s as [|x s IH]; intros i Hnone.
  - cbn [replaceAll]. rewrite Hnone by lia. reflexivity.
  - rewrite replaceAll_no_match by (apply Hnone; lia).
    f_equal. apply IH. intros j t Hj. apply Hnone. lia.
Qed.

End Replace.

(** ** Unfolding the matcher *)

Lemma matchRe_seq ic r1 r2 i s k :
  matchRe ic (RSeq r1 r2) i s k
  = matchRe ic r1 i s (fun i' s' => matchRe ic r2 i' s' k).
Proof. reflexivity. Qed.

Lemma matchRe_bol ic i s k :
  matchRe ic RBol i s k = if (i =? 0)%nat then k i s else None.
Proof. reflexivity. Qed.

Lemma matchRe_eol ic i s k :
  matchRe ic REol i s k = match s with [] => k i s | _ :: _ => None end.
Proof. reflexivity. Qed.

Lemma matchRe_empty ic i s k : matchRe ic REmpty i s k = k i s.
Proof. reflexivity. Qed.

Lemma matchRe_char ic c i s k :
  matchRe ic (RChar c) i s k
  = match s with
    | x :: s' => if charEq ic c x then k (S i) s' else None
    | [] => None
    end.
Proof. reflexivity. Qed.

Lemma matchRe_repeat ic min max greedy r i s k :
  matchRe ic (RRepeat min max greedy r) i s k
  = repeatMatcher (matchRe ic r) greedy k (S (min + length s)) min max i s.
Proof. reflexivity. Qed.

Lemma repeatMatcher_S m greedy k fuel min max i s :
  repeatMatcher m greedy k (S fuel) min max i s
  = if isZero max then k i s
    else
      let again :=
        m i s (fun i' s' =>
                 if (min =? 0)%nat && (i' =? i)%nat then None
                 else repeatMatcher m greedy k fuel (pred min) (predOpt max) i' s') in
      if (0 <? min)%nat then again
      else if greedy then orElse again (k i s)
      else orElse (k i s) again.
Proof. reflexivity. Qed.

(** ** The literal [/^\D+/g] *)

Lemma nonDigit_step (i : nat) (s : str) (k : Continuation) :
  nonDigit i s k
  = match s with
    | x :: s' => if isDigit x then None else k (S i) s'
    | [] => None
    end.
Proof.
  destruct s as [|x s]; [reflexivity |].
  unfold nonDigit. cbn. destruct (isDigit x); reflexivity.
Qed.

Lemma nonDigits_greedy (fuel : nat) (s : str) (i : nat) :
  length s < fuel ->
  repeatMatcher nonDigit true (fun e _ => Some e) fuel 0 None i s
  = Some (i + leadingRun s).
Proof.
  revert s i. induction fuel as [|fuel IH]; intros s i Hf; [lia |].
  rewrite repeatMatcher_S.
  cbn [isZero Nat.ltb Nat.leb Nat.eqb andb pred predOpt].
  rewrite nonDigit_step.
  destruct s as [|x s]; cbn [leadingRun orElse].
  - f_equal. lia.
  - destruct (isDigit x); cbn [orElse]; [f_equal; lia |].
    replace (S i =? i)%nat with false by (symmetry; apply Nat.eqb_neq; lia).
    simpl in Hf. rewrite IH by lia. cbn [orElse]. f_equal. lia.
Qed.

Lemma leadingNonDigits_matchAt (i : nat) (s : str) :
  matchAt false (source Version.leadingNonDigits) i s
  = match i, s with
    | 0, x :: s' => if isDigit x then None else Some (S (leadingRun s'))
    | _, _ => None
    end.
Proof.
  unfold matchAt.
  change (source Version.leadingNonDigits)
    with (RSeq RBol (RSeq (RRepeat 1 None true (RClass false [CEscape NotDigit])) REmpty)).
  rewrite matchRe_seq, matchRe_bol.
  destruct i as [|i]; [| reflexivity]. cbn [Nat.eqb].
  rewrite matchRe_seq, matchRe_repeat. fold nonDigit.
  change (fun (i' : nat) (s' : str) => matchRe false REmpty i' s' (fun e _ => Some e))
    with (fun (e : nat) (_ : str) => Some e).
  rewrite repeatMatcher_S.
  cbn [isZero Nat.ltb Nat.leb Nat.eqb andb pred predOpt].
  rewrite nonDigit_step.
  destruct s as [|x s]; [reflexivity |].
  destruct (isDigit x); [reflexivity |].
  rewrite nonDigits_greedy by (simpl; lia). reflexivity.
Qed.

Lemma leadingRun_length (s : str) : leadingRun s <= length s.
Proof. induction s as [|x s IH]; simpl; [lia |]. destruct (isDigit x); lia. Qed.

Lemma skipn_leadingRun (s : str) :
  skipn (leadingRun s) s = Version.dropLeadingNonDigits s.
Proof.
  induction s as [|x s IH]; [reflexivity |].
  simpl. destruct (isDigit x); [reflexivity | exact IH].
Qed.

(** [label.replace(/^\D+/g, '')] strips the leading characters that are
    not digits, and nothing else. *)
Lemma replace_leadingNonDigits (s : str) :
  replace Version.leadingNonDigits [] s = Version.dropLeadingNonDigits s.
Proof.
  unfold replace, replaceWith.
  change (global Version.leadingNonDigits) with true. cbn iota.
  destruct s as [|x s].
  - reflexivity.
  - destruct (isDigit x) eqn:Hx.
    + rewrite replaceAll_no_match
        by (change (ignoreCase Version.leadingNonDigits) with false;
            rewrite leadingNonDigits_matchAt, Hx; reflexivity).
      cbn [Version.dropLeadingNonDigits]. rewrite Hx. f_equal.
      apply replaceAll_copies. intros j t Hj.
      change (ignoreCase Version.leadingNonDigits) with false.
      rewrite leadingNonDigits_matchAt. destruct j; [lia | reflexivity].
    + pose proof (leadingRun_length s) as Hrun.
      rewrite (replaceAll_match _ _ 0 (S (leadingRun s)))
        by (try (change (ignoreCase Version.leadingNonDigits) with false;
                 rewrite leadingNonDigits_matchAt, Hx; reflexivity);
            simpl; lia).
      cbn [substitute app Nat.sub skipn].
      cbn [Version.dropLeadingNonDigits]. rewrite Hx.
      rewrite <- skipn_leadingRun.
      apply replaceAll_copies. intros j t Hj.
      change (ignoreCase Version.leadingNonDigits) with false.
      rewrite leadingNonDigits_matchAt. destruct j; [lia | reflexivity].
Qed.

End RegexFacts.

(** * Properties of the version dropdown *)

Module VersionClaims.

Import Js Regex Version RegexFacts.
Open Scope char_scope.
Open Scope list_scope.

Lemma dropLeadingNonDigits_split (label : str) :
  exists skipped,
    label = skipped ++ dropLeadingNonDigits label
    /\ forallb (fun c => negb (isDigit c)) skipped = true
    /\ match dropLeadingNonDigits label with
       | [] => True
       | c :: _ => isDigit c = true
       end.
Proof.
  induction label as [|x label (skipped & Hsplit & Hskipped & Hhead)].
  - exists []. repeat split.
  - cbn [dropLeadingNonDigits]. destruct (isDigit x) eqn:Hx.
    + exists []. repeat split. exact Hx.
    + exists (x :: skipped). cbn [forallb app]. rewrite Hx, Hskipped.
      repeat split; [f_equal; exact Hsplit | exact Hhead].
Qed.

(** C10: without a slug and a branch name the label is the fixed text;
    otherwise the slug, or else the branch name, loses its leading
    characters that are not digits, and the label is ["Version "] and
    what remains, or the name itself when nothing remains. *)
Theorem C10_createVersionLabel (urlSlug gitBranchName : option str) :
  createVersionLabel urlSlug gitBranchName
  = (if isEmpty (orEmpty urlSlug) && isEmpty (orEmpty gitBranchName)
     then lit "Version Name Unknown"
     else
       let label := if isEmpty (orEmpty urlSlug) then orEmpty gitBranchName
                    else orEmpty urlSlug in
       if isEmpty (dropLeadingNonDigits label) then label
       else lit "Version " ++ dropLeadingNonDigits label)
  /\ (forall label : str,
        exists skipped,
          label = skipped ++ dropLeadingNonDigits label
          /\ forallb (fun c => negb (isDigit c)) skipped = true
          /\ match dropLeadingNonDigits label with
             | [] => True
             | c :: _ => isDigit c = true
             end).
Proof.
  split; [| exact dropLeadingNonDigits_split].
  unfold createVersionLabel. cbv zeta.
  rewrite replace_leadingNonDigits. reflexivity.
Qed.

(** C9: when fewer than two branches are left after the [realm] filter,
    the component returns [null], having warned on the console: there is
    no select control and so no [navigate] to call. *)
Theorem C9_insufficient_branches
        (generatePathPrefix : SiteMetadata -> str)
        (getLegacyProjectURL normalizePath : str -> str)
        (groupBranches : option (list Branch -> option (list Group) -> str))
        (flag : bool) (meta : SiteMetadata)
        (branches : list Branch) (groups : option (list Group)) (slug : str)
        (branches' : list Branch) (groups' : option (list Group)) :
  realmSdkFilter meta slug branches groups = Returned (branches', groups') ->
  length branches' < 2 ->
  VersionDropdown generatePathPrefix getLegacyProjectURL normalizePath
                  groupBranches flag meta branches groups slug
  = Returned (RNull, [Warn insufficientBranches]).
Proof.
  intros Hfilter Hlen. unfold VersionDropdown. rewrite Hfilter. cbn [bind].
  apply Nat.ltb_lt in Hlen. rewrite Hlen. reflexivity.
Qed.

Lemma C9_insufficient_branches_witness :
  VersionDropdown (fun _ => []) (fun p => p) (fun p => p) None true sampleMetadata
                  [sampleBranch "android-v1.0"; sampleBranch "ios-v2.0"]
                  (Some [sampleGroup]) (lit "sdk/android/install")
  = Returned (RNull, [Warn insufficientBranches]).
Proof.
  apply (C9_insufficient_branches
           (fun _ => []) (fun p => p) (fun p => p) None true sampleMetadata
           [sampleBranch "android-v1.0"; sampleBranch "ios-v2.0"]
           (Some [sampleGroup]) (lit "sdk/android/install")
           [sampleBranch "android-v1.0"] (Some [sampleGroup])).
  - reflexivity.
  - simpl. lia.
Defined.

End VersionClaims.

(** * Properties of the search result *)

Module SearchFacts.

Import Js Regex Search RegexFacts.
Open Scope char_scope.
Open Scope list_scope.

(** ** [escapeRegExp] *)

Lemma metaCharacters_parsed :
  newRegExp metaCharacterPattern (lit "g") = Some metaCharacters.
Proof. reflexivity. Qed.

Lemma metaCharacters_class (x : ascii) :
  classMatches false
    [CChar "."; CChar "*"; CChar "+"; CChar "?"; CChar "^"; CChar "$"; CChar "{";
     CChar "}"; CChar "("; CChar ")"; CChar "|"; CChar "["; CChar "]"; CChar "\"] x
  = isSyntaxCharacter x.
Proof.
  destruct x as [[] [] [] [] [] [] [] []]; reflexivity.
Qed.

Lemma metaCharacters_matchAt (i : nat) (s : str) :
  matchAt false (source metaCharacters) i s
  = match s with
    | x :: _ => if isSyntaxCharacter x then Some (S i) else None
    | [] => None
    end.
Proof.
  unfold matchAt. unfold metaCharacters at 1. cbn [source].
  rewrite matchRe_seq. destruct s as [|x s]; [reflexivity |].
  cbn [matchRe xorb]. rewrite metaCharacters_class.
  destruct (isSyntaxCharacter x); reflexivity.
Qed.

Lemma substitute_backslash (m : str) : substitute (lit "\$&") m = "\" :: m.
Proof. cbn. rewrite app_nil_r. reflexivity. Qed.

Lemma escapeRegExp_from (i : nat) (s : str) :
  replaceAll metaCharacters (substitute (lit "\$&")) i 0 s = flat_map escapeChar s.
Proof.
  revert i. induction s as [|x s IH]; intros i.
  - cbn [replaceAll]. change (ignoreCase metaCharacters) with false.
    rewrite metaCharacters_matchAt. reflexivity.
  - cbn [flat_map]. unfold escapeChar at 1.
    destruct (isSyntaxCharacter x) eqn:Hx.
    + rewrite (replaceAll_match _ _ i (S i))
        by (try (change (ignoreCase metaCharacters) with false;
                 rewrite metaCharacters_matchAt, Hx; reflexivity);
            cbn [length]; lia).
      replace (S i - i) with 1 by lia.
      cbn [firstn skipn]. rewrite substitute_backslash, IH. reflexivity.
    + rewrite replaceAll_no_match
        by (change (ignoreCase metaCharacters) with false;
            rewrite metaCharacters_matchAt, Hx; reflexivity).
      rewrite IH. reflexivity.
Qed.

(** [escapeRegExp] puts a backslash before every syntax character and
    leaves the other characters as they are. *)
Lemma escapeRegExp_spec (s : str) : escapeRegExp s = flat_map escapeChar s.
Proof. apply escapeRegExp_from. Qed.

(** ** The pattern built from an escaped term *)

Lemma quantified_none (atom : Re) (s : str) :
  quantifierAhead s = false -> quantified atom s = Some (atom, s).
Proof.
  unfold quantified, parseQuantifierPrefix, quantifierAhead.
  destruct s as [|c s]; [reflexivity |]. intros H.
  repeat (apply orb_false_iff in H; destruct H as [H ?]).
  repeat match goal with E : (_ =? _) = false |- _ => rewrite E; clear E end.
  reflexivity.
Qed.

Lemma atomEscape_syntax (c : ascii) :
  isSyntaxCharacter c = true -> atomEscape c = Some (EChar c).
Proof.
  destruct c as [[] [] [] [] [] [] [] []]; intros H;
    solve [reflexivity | discriminate H].
Qed.

Lemma parseTerm_escaped (fuel : nat) (c : ascii) (rest : str) :
  isSyntaxCharacter c = true ->
  quantifierAhead rest = false ->
  parseTerm (S fuel) ("\" :: c :: rest) = Some (RChar c, rest).
Proof.
  intros Hc Hrest. cbn. rewrite (atomEscape_syntax c Hc).
  apply quantified_none. exact Hrest.
Qed.

Lemma parseTerm_plain (fuel : nat) (c : ascii) (rest : str) :
  isSyntaxCharacter c = false ->
  quantifierAhead rest = false ->
  parseTerm (S fuel) (c :: rest) = Some (RChar c, rest).
Proof.
  intros Hc Hrest. cbn [parseTerm].
  unfold isSyntaxCharacter in Hc.
  repeat (apply orb_false_iff in Hc; destruct Hc as [Hc ?]).
  repeat match goal with E : (_ =? _) = false |- _ => rewrite ?E; clear E end.
  cbn [orb]. apply quantified_none. exact Hrest.
Qed.

Lemma quantifierAhead_escaped (s rest : str) :
  quantifierAhead rest = false ->
  quantifierAhead (flat_map escapeChar s ++ rest) = false.
Proof.
  intros Hrest. destruct s as [|c s]; [exact Hrest |].
  cbn [flat_map]. unfold escapeChar at 1.
  destruct (isSyntaxCharacter c) eqn:Hc; [reflexivity |].
  cbn [app quantifierAhead].
  unfold isSyntaxCharacter in Hc.
  repeat (apply orb_false_iff in Hc; destruct Hc as [Hc ?]).
  repeat match goal with E : (_ =? _) = false |- _ => rewrite ?E; clear E end.
  reflexivity.
Qed.

Lemma parseAlternative_S (fuel : nat) (s : str) :
  parseAlternative (S fuel) s
  = match s with
    | [] => Some (REmpty, s)
    | c :: _ =>
        if (c =? "|") || (c =? ")") then Some (REmpty, s)
        else
          match parseTerm fuel s with
          | Some (t, rest) =>
              match parseAlternative fuel rest with
              | Some (r, rest') => Some (RSeq t r, rest')
              | None => None
              end
          | None => None
          end
    end.
Proof. reflexivity. Qed.

Lemma parseDisjunction_S (fuel : nat) (s : str) :
  parseDisjunction (S fuel) s
  = match parseAlternative fuel s with
    | Some (r, rest) =>
        match rest with
        | c :: rest' =>
            if c =? "|" then
              match parseDisjunction fuel rest' with
              | Some (r', rest'') => Some (RAlt r r', rest'')
              | None => None
              end
            else Some (r, rest)
        | [] => Some (r, rest)
        end
    | None => None
    end.
Proof. reflexivity. Qed.

(** Escaped characters parse as themselves, whatever follows them. *)
Lemma parseAlternative_escaped (s : str) (fuel : nat) (rest : str) :
  quantifierAhead rest = false ->
  parseAlternative (length s + S fuel) (flat_map escapeChar s ++ rest)
  = match parseAlternative (S fuel) rest with
    | Some (r, rest') => Some (literal s r, rest')
    | None => None
    end.
Proof.
  intros Hrest. induction s as [|c s IH].
  - cbn [length flat_map app Nat.add literal fold_right].
    destruct (parseAlternative (S fuel) rest) as [[r rest'] |]; reflexivity.
  - pose proof (quantifierAhead_escaped s rest Hrest) as Hnext.
    cbn [length flat_map Nat.add]. rewrite <- app_assoc.
    rewrite parseAlternative_S. rewrite Nat.add_succ_r in *.
    destruct (isSyntaxCharacter c) eqn:Hc.
    + replace (escapeChar c) with ["\"; c] by (unfold escapeChar; rewrite Hc; reflexivity).
      cbn [app]. change (("\" =? "|") || ("\" =? ")")) with false. cbn iota.
      rewrite parseTerm_escaped by assumption.
      rewrite IH.
      destruct (parseAlternative (S fuel) rest) as [[r rest'] |]; reflexivity.
    + replace (escapeChar c) with [c] by (unfold escapeChar; rewrite Hc; reflexivity).
      cbn [app].
      rewrite parseTerm_plain by assumption.
      rewrite IH.
      unfold isSyntaxCharacter in Hc.
      repeat (apply orb_false_iff in Hc; destruct Hc as [Hc ?]).
      repeat match goal with E : (_ =? _) = false |- _ => rewrite ?E; clear E end.
      cbn [orb].
      destruct (parseAlternative (S fuel) rest) as [[r rest'] |]; reflexivity.
Qed.

Lemma length_escaped (s : str) : length s <= length (flat_map escapeChar s).
Proof.
  induction s as [|c s IH]; [reflexivity |].
  cbn [flat_map]. rewrite length_app. unfold escapeChar at 1.
  destruct (isSyntaxCharacter c); cbn [length] in *; lia.
Qed.

(** The pattern read from an escaped term is the term, character by
    character. *)
Lemma parsePattern_escaped (term : str) :
  parsePattern (escapeRegExp term) = Some (literal term REmpty).
Proof.
  rewrite escapeRegExp_spec. unfold parsePattern.
  pose proof (length_escaped term) as Hlen.
  set (e := flat_map escapeChar term) in *.
  replace (3 * length e + 3)
    with (S (length term + S (3 * length e + 1 - length term))) by lia.
  rewrite parseDisjunction_S.
  rewrite <- (app_nil_r e) at 2. subst e.
  rewrite parseAlternative_escaped by reflexivity.
  reflexivity.
Qed.

Lemma newRegExp_escaped (term : str) :
  newRegExp (escapeRegExp term) (lit "gi")
  = Some {| source := literal term REmpty; global := true; ignoreCase := true |}.
Proof. unfold newRegExp. rewrite parsePattern_escaped. reflexivity. Qed.

(** ** Matching a literal pattern *)

Lemma literal_match (t : str) (r : Re) (i : nat) (s : str) (k : Continuation) :
  matchRe true (literal t r) i s k
  = if occursAt t s
    then matchRe true r (i + length t) (skipn (length t) s) k
    else None.
Proof.
  revert i s. induction t as [|c t IH]; intros i s.
  - cbn [literal fold_right occursAt length skipn]. rewrite Nat.add_0_r.
    destruct s; reflexivity.
  - change (literal (c :: t) r) with (RSeq (RChar c) (literal t r)).
    rewrite matchRe_seq, matchRe_char.
    destruct s as [|x s]; [reflexivity |].
    cbn [occursAt length skipn]. unfold charEq.
    destruct (canonicalize c =? canonicalize x); [| reflexivity].
    rewrite IH. cbn [andb]. rewrite Nat.add_succ_r. reflexivity.
Qed.

Lemma occursAt_length (t s : str) : occursAt t s = true -> length t <= length s.
Proof.
  revert s. induction t as [|c t IH]; intros [|x s] H; cbn in *;
    try lia; try discriminate.
  apply andb_true_iff in H. destruct H as [_ H]. apply IH in H. lia.
Qed.

Lemma occursAt_firstn (t s : str) :
  occursAt t s = true -> sameLetters (firstn (length t) s) t = true.
Proof.
  intros H. unfold sameLetters.
  pose proof (occursAt_length t s H) as Hlen.
  rewrite length_firstn, Nat.min_l, Nat.eqb_refl by exact Hlen. cbn [andb].
  clear Hlen. revert s H. induction t as [|c t IH]; intros [|x s] H; cbn in *;
    try reflexivity; try discriminate.
  apply andb_true_iff in H. destruct H as [Hc H].
  rewrite Hc. cbn [andb]. apply IH. exact H.
Qed.

Lemma literal_matchAt (term : str) (i : nat) (s : str) :
  matchAt (ignoreCase (literalRegExp term)) (source (literalRegExp term)) i s
  = if occursAt term s then Some (i + length term) else None.
Proof. unfold matchAt. cbn [literalRegExp ignoreCase source]. apply literal_match. Qed.

(** ** Letter case *)

Lemma allChars_complete (a : ascii) : In a allChars.
Proof.
  unfold allChars. rewrite <- (ascii_nat_embedding a). apply in_map, in_seq.
  pose proof (nat_ascii_bounded a). lia.
Qed.

Lemma caseless_table :
  forallb (fun a =>
             forallb (fun b => Bool.eqb (canonicalize a =? canonicalize b) (caseless a b))
                     allChars)
          allChars
  = true.
Proof. vm_compute. reflexivity. Qed.

(** The matcher's comparison under the [i] flag is equality up to letter
    case. *)
Lemma canonicalize_caseless (a b : ascii) :
  (canonicalize a =? canonicalize b) = caseless a b.
Proof.
  pose proof caseless_table as H. rewrite forallb_forall in H.
  specialize (H a (allChars_complete a)). rewrite forallb_forall in H.
  specialize (H b (allChars_complete b)). apply eqb_prop in H. exact H.
Qed.

Lemma occursAt_caseless (term s : str) : occursAt term s = caselessAt term s.
Proof.
  revert s. induction term as [|c term IH]; intros [|x s]; try reflexivity.
  cbn [occursAt caselessAt]. rewrite canonicalize_caseless, IH. reflexivity.
Qed.

(** ** A text has one scanned cut *)

Lemma occursAt_app (t m rest : str) :
  occursAt t m = true -> occursAt t (m ++ rest) = true.
Proof.
  revert m. induction t as [|c t IH]; intros [|x m] H; cbn in *;
    try reflexivity; try discriminate.
  apply andb_true_iff in H. destruct H as [Hc H].
  rewrite Hc. cbn [andb]. apply IH. exact H.
Qed.

Lemma sameLetters_length (m t : str) : sameLetters m t = true -> length m = length t.
Proof.
  unfold sameLetters. intros H. apply andb_true_iff in H.
  apply Nat.eqb_eq. apply H.
Qed.

Lemma app_same_length (a b x y : str) :
  length a = length b -> a ++ x = b ++ y -> a = b /\ x = y.
Proof.
  revert b. induction a as [|h a IH]; intros [|k b] Hlen Happ;
    try discriminate Hlen; [split; [reflexivity | exact Happ] |].
  injection Happ as -> Happ. injection Hlen as Hlen.
  destruct (IH b Hlen Happ) as [-> ->]. split; reflexivity.
Qed.

Lemma scanned_unique (c : ascii) (term : str) (segs1 segs2 : list Segment) :
  scanned (c :: term) segs1 = true ->
  scanned (c :: term) segs2 = true ->
  flat_map segmentText segs1 = flat_map segmentText segs2 ->
  segs1 = segs2.
Proof.
  revert segs2. induction segs1 as [|seg1 segs1 IH]; intros segs2 H1 H2 Htext.
  - destruct segs2 as [|[x | m] segs2]; [reflexivity | discriminate Htext |].
    cbn [scanned] in H2. apply andb_true_iff in H2. destruct H2 as [Hm _].
    apply sameLetters_length in Hm. destruct m; [discriminate Hm | discriminate Htext].
  - cbn [scanned flat_map] in H1, Htext.
    destruct seg1 as [x1 | m1]; apply andb_true_iff in H1; destruct H1 as [Hhead1 H1].
    + destruct segs2 as [|[x2 | m2] segs2]; [discriminate Htext | |];
        cbn [scanned flat_map segmentText app] in H2, Htext;
        apply andb_true_iff in H2; destruct H2 as [Hhead2 H2].
      * injection Htext as -> Htext. f_equal. apply IH; assumption.
      * exfalso. apply negb_true_iff in Hhead1.
        cbn [segmentText app] in Hhead1. rewrite Htext in Hhead1.
        unfold sameLetters in Hhead2. apply andb_true_iff in Hhead2.
        rewrite (occursAt_app _ _ _ (proj2 Hhead2)) in Hhead1. discriminate.
    + destruct segs2 as [|[x2 | m2] segs2];
        cbn [scanned flat_map segmentText app] in H2, Htext.
      * apply sameLetters_length in Hhead1.
        destruct m1; [discriminate Hhead1 | discriminate Htext].
      * exfalso. apply andb_true_iff in H2. destruct H2 as [Hhead2 _].
        apply negb_true_iff in Hhead2. rewrite <- Htext in Hhead2.
        unfold sameLetters in Hhead1. apply andb_true_iff in Hhead1.
        rewrite (occursAt_app _ _ _ (proj2 Hhead1)) in Hhead2. discriminate.
      * apply andb_true_iff in H2. destruct H2 as [Hhead2 H2].
        pose proof (sameLetters_length _ _ Hhead1) as L1.
        pose proof (sameLetters_length _ _ Hhead2) as L2.
        apply app_same_length in Htext; [| congruence].
        destruct Htext as [-> Htext]. f_equal. apply IH; assumption.
Qed.

Section Highlight.

Variable yellow : str.

(** A term of one character or more: the scan cuts the text into its
    occurrences, taken from the left, and the characters between. *)
Lemma replaceAll_literal (c : ascii) (term : str) (n : nat) :
  forall (text : str) (i : nat),
    length text <= n ->
    exists segs,
      replaceAll (literalRegExp (c :: term)) (highlightSpan yellow) i 0 text
      = flat_map (renderSegment yellow) segs
      /\ flat_map segmentText segs = text
      /\ scanned (c :: term) segs = true.
Proof.
  induction n as [|n IH]; intros text i Hn.
  - destruct text; [| simpl in Hn; lia].
    exists []. repeat split.
  - destruct text as [|x text].
    + exists []. repeat split.
    + destruct (occursAt (c :: term) (x :: text)) eqn:Hocc.
      * pose proof (occursAt_length _ _ Hocc) as Hlen.
        set (L := length (c :: term)) in *.
        assert (HL : 0 < L) by (subst L; simpl; lia).
        destruct (IH (skipn L (x :: text)) (i + L)) as (segs & Hout & Htext & Hscan).
        { rewrite length_skipn. simpl in Hn |- *. lia. }
        exists (Occurrence (firstn L (x :: text)) :: segs).
        rewrite (replaceAll_match _ _ i (i + L))
          by (try (rewrite literal_matchAt, Hocc; reflexivity); lia).
        replace (i + L - i) with L by lia.
        cbn [flat_map renderSegment segmentText scanned].
        rewrite Hout, Htext, Hscan, firstn_skipn.
        subst L. rewrite (occursAt_firstn _ _ Hocc). repeat split.
      * destruct (IH text (S i)) as (segs & Hout & Htext & Hscan).
        { simpl in Hn. lia. }
        exists (Plain x :: segs).
        rewrite replaceAll_no_match
          by (rewrite literal_matchAt, Hocc; reflexivity).
        cbn [flat_map renderSegment segmentText scanned app].
        rewrite Hout, Htext, Hscan, Hocc. repeat split.
Qed.

(** The empty term occurs before every character and at the end. *)
Lemma replaceAll_empty_term (text : str) (i : nat) :
  replaceAll (literalRegExp []) (highlightSpan yellow) i 0 text
  = flat_map (renderSegment yellow)
             (Occurrence [] :: flat_map (fun c => [Plain c; Occurrence []]) text).
Proof.
  revert i. induction text as [|x text IH]; intros i.
  - cbn [replaceAll]. rewrite literal_matchAt.
    cbn [occursAt flat_map renderSegment]. rewrite firstn_nil. reflexivity.
  - cbn [replaceAll]. rewrite literal_matchAt.
    cbn [occursAt length]. rewrite Nat.add_0_r, Nat.sub_diag, Nat.eqb_refl.
    rewrite IH. cbn [firstn flat_map renderSegment app].
    reflexivity.
Qed.

Lemma empty_term_text (text : str) :
  flat_map segmentText
           (Occurrence [] :: flat_map (fun c => [Plain c; Occurrence []]) text)
  = text.
Proof.
  cbn [flat_map segmentText app].
  induction text as [|x text IH]; [reflexivity |].
  cbn [flat_map segmentText app]. rewrite IH. reflexivity.
Qed.

End Highlight.

End SearchFacts.

Module SanitizeFacts.

Import Js Regex SanitizeHtml Search RegexFacts SearchFacts.
Open Scope char_scope.
Open Scope list_scope.

Lemma Html_tree_ind (P : Html -> Prop) :
  (forall t, P (Text t)) ->
  (forall tag attrs kids, Forall P kids -> P (Element tag attrs kids)) ->
  forall n, P n.
Proof.
  intros Htext Helem.
  fix IH 1.
  intros [t | tag attrs kids]; [apply Htext | apply Helem].
  induction kids as [|k kids IHkids]; constructor; [apply IH | exact IHkids].
Qed.

Lemma plainText_escaped (s : str) : plainText s = true -> flat_map escapeChar s = s.
Proof.
  induction s as [|c s IH]; [reflexivity |].
  cbn [plainText forallb]. intros H. apply andb_true_iff in H. destruct H as [Hc Hs].
  cbn [flat_map]. rewrite (IH Hs). unfold escapeChar.
  apply negb_true_iff in Hc. rewrite Hc. reflexivity.
Qed.

(** [new RegExp(`^${colour}$`, 'i')] for a plain colour. *)
Lemma newRegExp_colour (yellow : str) :
  plainText yellow = true ->
  newRegExp (lit "^" ++ yellow ++ lit "$") (lit "i") = Some (colourRegExp yellow).
Proof.
  intros Hplain. unfold newRegExp, parsePattern.
  change (lit "^" ++ yellow ++ lit "$") with ("^" :: yellow ++ ["$"]).
  replace (3 * length ("^" :: yellow ++ ["$"]) + 3)
    with (S (S (S (length yellow + S (2 * length yellow + 5)))))
    by (cbn [length]; rewrite length_app; cbn [length]; lia).
  rewrite parseDisjunction_S, parseAlternative_S.
  change (("^" =? "|") || ("^" =? ")")) with false. cbn iota.
  change (parseTerm (S (length yellow + S (2 * length yellow + 5)))
                    ("^" :: yellow ++ ["$"]))
    with (Some (RBol, yellow ++ ["$"])).
  cbn iota.
  rewrite <- (Nat.add_succ_r (length yellow)).
  pose proof (parseAlternative_escaped
                yellow (S (2 * length yellow + 5)) ["$"] eq_refl) as Hparse.
  rewrite (plainText_escaped yellow Hplain) in Hparse.
  rewrite Hparse. reflexivity.
Qed.

Lemma colour_matchAt (yellow : str) (i : nat) (v : str) :
  matchAt true (source (colourRegExp yellow)) i v
  = if (i =? 0)%nat && sameLetters v yellow then Some (length yellow) else None.
Proof.
  unfold matchAt. cbn [colourRegExp source].
  rewrite matchRe_seq, matchRe_bol.
  destruct i as [|i]; [| reflexivity]. cbn [Nat.eqb andb].
  rewrite literal_match. unfold sameLetters.
  destruct (occursAt yellow v) eqn:Hocc; [| rewrite andb_false_r; reflexivity].
  pose proof (occursAt_length _ _ Hocc) as Hlen.
  rewrite matchRe_seq, matchRe_eol, andb_true_r.
  destruct (length v =? length yellow)%nat eqn:E.
  - apply Nat.eqb_eq in E. rewrite skipn_all2 by lia. reflexivity.
  - apply Nat.eqb_neq in E.
    destruct (skipn (length yellow) v) eqn:Hskip; [| reflexivity].
    apply (f_equal (@length ascii)) in Hskip. rewrite length_skipn in Hskip.
    simpl in Hskip. lia.
Qed.

Lemma colour_search_later (yellow : str) (v : str) (i : nat) :
  search (colourRegExp yellow) (S i) v = None.
Proof.
  revert i. induction v as [|x v IH]; intros i; cbn [search];
    change (ignoreCase (colourRegExp yellow)) with true;
    rewrite colour_matchAt; cbn [Nat.eqb andb]; [reflexivity | apply IH].
Qed.

(** The highlight pattern accepts a value exactly when it spells the
    colour, letter case aside. *)
Lemma colour_test (yellow v : str) :
  test (colourRegExp yellow) v = sameLetters v yellow.
Proof.
  unfold test. destruct v as [|x v]; cbn [search];
    change (ignoreCase (colourRegExp yellow)) with true;
    rewrite colour_matchAt; cbn [Nat.eqb andb];
    destruct (sameLetters _ yellow); try reflexivity.
  rewrite colour_search_later. reflexivity.
Qed.

Section Preview.

Variable yellow : str.

Let o : Options := previewOptions (colourRegExp yellow).

Lemma preview_declaration (d : str * str) :
  declarationAllowed [(lit "background-color", [colourRegExp yellow])] d
  = declarationListed yellow d.
Proof.
  unfold declarationAllowed, declarationListed. cbn [existsb fst snd].
  rewrite colour_test, !orb_false_r. f_equal.
  destruct (strEqb (fst d) (lit "background-color")) eqn:E.
  - apply strEqb_eq in E. rewrite E. apply strEqb_refl.
  - destruct (strEqb (lit "background-color") (fst d)) eqn:E'; [| reflexivity].
    apply strEqb_eq in E'. rewrite <- E', strEqb_refl in E. discriminate.
Qed.

Lemma preview_attribute (a : Attribute) :
  forallb (attributeListed yellow) (filterAttribute o (lit "span") a) = true.
Proof.
  unfold filterAttribute.
  destruct (attributeAllowed o (lit "span") (attributeName a)) eqn:Hallowed;
    [| reflexivity].
  destruct a as [ds | name value].
  - change (filterCss o (lit "span") ds)
      with (filter (declarationAllowed [(lit "background-color", [colourRegExp yellow])]) ds).
    assert (Hds : forallb (declarationListed yellow)
                    (filter (declarationAllowed
                               [(lit "background-color", [colourRegExp yellow])]) ds)
                  = true).
    { apply forallb_forall. intros d Hd. apply filter_In in Hd.
      rewrite <- preview_declaration. apply Hd. }
    destruct (filter _ ds); [reflexivity |].
    cbn [forallb attributeListed] in *. rewrite Hds. reflexivity.
  - cbn [attributeName] in Hallowed.
    change (attributeAllowed o (lit "span") name)
      with (strEqb name (lit "style") || false || false) in Hallowed.
    rewrite !orb_false_r in Hallowed. rewrite Hallowed. reflexivity.
Qed.

Lemma preview_node (n : Html) :
  forallb (allowListed yellow) (sanitizeNode o n) = true.
Proof.
  induction n as [t | tag attrs kids IH] using Html_tree_ind; [reflexivity |].
  assert (Hkids : forallb (allowListed yellow) (flat_map (sanitizeNode o) kids) = true).
  { induction IH as [|k kids Hk _ IHkids]; [reflexivity |].
    cbn [flat_map]. rewrite forallb_app, Hk, IHkids. reflexivity. }
  cbn [sanitizeNode].
  destruct (member tag (allowedTags o)) eqn:Htag.
  - change (member tag (allowedTags o)) with (strEqb tag (lit "span") || false) in Htag.
    rewrite orb_false_r in Htag.
    cbn [forallb allowListed]. rewrite Htag, Hkids, !andb_true_r.
    apply strEqb_eq in Htag. subst tag.
    induction attrs as [|a attrs IHattrs]; [reflexivity |].
    cbn [flat_map]. rewrite forallb_app, preview_attribute, IHattrs. reflexivity.
  - destruct (member tag nonTextTags); [reflexivity | exact Hkids].
Qed.

Lemma preview_fragment (text : list Html) :
  forallb (allowListed yellow) (sanitizeHtml text o) = true.
Proof.
  unfold sanitizeHtml. induction text as [|n text IH]; [reflexivity |].
  cbn [flat_map]. rewrite forallb_app, preview_node, IH. reflexivity.
Qed.

End Preview.

End SanitizeFacts.

Module SearchClaims.

Import Js Regex Search RegexFacts SearchFacts.
Open Scope char_scope.
Open Scope list_scope.

(** C8: [escapeRegExp] puts a backslash before every syntax character of
    the search term, so the pattern built from it is the term read
    character by character; [highlightSearchTerm] then cuts the text into
    the occurrences of the term, letter case aside and taken from the
    left, and the characters between them, writes each occurrence between
    [<span style="background-color: colour;">] and [</span>] and leaves
    the other characters as they are. *)
Theorem C8_highlight_literal_occurrences (yellow text searchTerm : str) :
  escapeRegExp searchTerm = flat_map escapeChar searchTerm
  /\ parsePattern (escapeRegExp searchTerm) = Some (literal searchTerm REmpty)
  /\ (exists segs,
         highlightSearchTerm yellow text searchTerm
         = Some (flat_map (markSegment yellow) segs)
         /\ flat_map segmentText segs = text
         /\ match searchTerm with
            | [] => segs = Occurrence [] :: flat_map (fun c => [Plain c; Occurrence []]) text
            | _ :: _ => scanned searchTerm segs = true
            end)
  /\ (forall term s : str, occursAt term s = caselessAt term s).
Proof.
  split; [apply escapeRegExp_spec |].
  split; [apply parsePattern_escaped |].
  split; [| apply occursAt_caseless].
  change (markSegment yellow) with (renderSegment yellow).
  unfold highlightSearchTerm. rewrite newRegExp_escaped.
  fold (literalRegExp searchTerm).
  unfold replaceWith. change (global (literalRegExp searchTerm)) with true. cbn iota.
  destruct searchTerm as [|c term].
  - eexists. split; [| split; [| reflexivity]].
    + rewrite replaceAll_empty_term. reflexivity.
    + apply empty_term_text.
  - destruct (replaceAll_literal yellow c term (length text) text 0 (le_n _))
      as (segs & Hout & Htext & Hscan).
    exists segs. rewrite Hout. repeat split; assumption.
Qed.

(** C7: with a plain highlight colour, [sanitizePreviewHtml] returns a
    fragment in which every tag is [span], every attribute is [style] and
    every declaration is a [background-color] whose value spells the
    colour, letter case aside; all other tags, attributes and styles are
    gone. *)
Theorem C7_preview_allow_list (yellow : str) (text : list SanitizeHtml.Html) :
  plainText yellow = true ->
  exists clean,
    sanitizePreviewHtml yellow text = Some clean
    /\ forallb (allowListed yellow) clean = true.
Proof.
  intros Hplain. unfold sanitizePreviewHtml.
  rewrite (SanitizeFacts.newRegExp_colour yellow Hplain).
  eexists. split; [reflexivity |]. apply SanitizeFacts.preview_fragment.
Qed.

Lemma C7_preview_allow_list_witness :
  exists clean,
    sanitizePreviewHtml sampleColour samplePreview = Some clean
    /\ forallb (allowListed sampleColour) clean = true.
Proof.
  apply (C7_preview_allow_list sampleColour samplePreview). reflexivity.
Defined.

End SearchClaims.

(** * The components on sample inputs *)

Module Examples.

Import Js Regex Search Version Toc.
Open Scope char_scope.
Open Scope list_scope.

(** The matcher backtracks: the first alternative that lets the rest
    match wins. *)
Example matcher_backtracks :
  option_map (fun rx => replace rx (lit "[$&]") (lit "abcd"))
             (newRegExp (lit "(a|ab)(c|bcd)") (lit "g"))
  = Some (lit "[abcd]").
Proof. reflexivity. Qed.

Example lazy_quantifier :
  option_map (fun rx => replace rx (lit "[$&]") (lit "aaaaaaa"))
             (newRegExp (lit "a{2,3}?") (lit "g"))
  = Some (lit "[aa][aa][aa]a").
Proof. reflexivity. Qed.

Example empty_matches_advance :
  option_map (fun rx => replace rx (lit "-") (lit "baaac"))
             (newRegExp (lit "a*") (lit "g"))
  = Some (lit "-b--c-").
Proof. reflexivity. Qed.

Example nothing_to_repeat : newRegExp (lit "a**") (lit "g") = None.
Proof. reflexivity. Qed.

(** Without the escape, the dot of a search term would match any
    character. *)
Example unescaped_dot :
  option_map (fun rx => replace rx (lit "[$&]") (lit "a.c abc"))
             (newRegExp (lit "a.c") (lit "gi"))
  = Some (lit "[a.c] [abc]").
Proof. reflexivity. Qed.

Example escapeRegExp_sample :
  escapeRegExp (lit "a.c (x|y)? [z] {1} ^$ \ *+") = lit "a\.c \(x\|y\)\? \[z\] \{1\} \^\$ \\ \*\+".
Proof. reflexivity. Qed.

Example highlight_sample :
  highlightSearchTerm sampleColour (lit "a.c abc A.C") (lit "a.c")
  = Some (highlightSpan sampleColour (lit "a.c") ++ lit " abc "
            ++ highlightSpan sampleColour (lit "A.C")).
Proof. reflexivity. Qed.

Example highlight_overlapping :
  highlightSearchTerm sampleColour (lit "aaa") (lit "aa")
  = Some (highlightSpan sampleColour (lit "aa") ++ lit "a").
Proof. reflexivity. Qed.

Example highlight_empty_term :
  highlightSearchTerm sampleColour (lit "ab") []
  = Some (highlightSpan sampleColour [] ++ lit "a" ++ highlightSpan sampleColour []
            ++ lit "b" ++ highlightSpan sampleColour []).
Proof. reflexivity. Qed.

Example sanitize_sample :
  sanitizePreviewHtml sampleColour samplePreview
  = Some [SanitizeHtml.Text (lit "bold");
          SanitizeHtml.Element (lit "span")
            [SanitizeHtml.StyleAttr [(lit "background-color", lit "#ffec9e")]]
            [SanitizeHtml.Text (lit "hit")]].
Proof. reflexivity. Qed.

Example version_label_samples :
  createVersionLabel (Some (lit "android-v1.0")) (Some (lit "master")) = lit "Version 1.0"
  /\ createVersionLabel None (Some (lit "v4.4")) = lit "Version 4.4"
  /\ createVersionLabel (Some []) (Some (lit "master")) = lit "master"
  /\ createVersionLabel None None = lit "Version Name Unknown".
Proof. repeat split. Qed.

(** No group shares a prefix with the slug: [groups[0]] is [undefined]
    and reading its branches throws. *)
Example realm_filter_throws :
  realmSdkFilter sampleMetadata (lit "sdk/ios/install")
                 [sampleBranch "android-v1.0"] (Some [sampleGroup])
  = Thrown.
Proof. reflexivity. Qed.

(** With two branches the component goes on to the call of
    [groupBranches]. *)
Example two_branches_unbound_helper :
  VersionDropdown (fun _ => []) (fun p => p) (fun p => p) None true
                  {| parserBranch := lit "master"; pathPrefix := None;
                     project := lit "docs"; snootyEnv := lit "production" |}
                  [sampleBranch "v1.0"; sampleBranch "v2.0"] (Some []) (lit "install")
  = Thrown.
Proof. reflexivity. Qed.

(** With [groupBranches] bound, two active branches give a select of two
    options. *)
Example two_branches_select :
  match VersionDropdown (fun _ => []) (fun p => p) (fun p => p)
                        (Some (fun _ _ => [])) false
                        {| parserBranch := lit "master"; pathPrefix := None;
                           project := lit "docs"; snootyEnv := lit "production" |}
                        [sampleBranch "v1.0"; sampleBranch "v2.0"] (Some [])
                        (lit "install") with
  | Returned (RSelect select, _) =>
      map (fun child => match child with
                        | SOption o => (option_label o, option_href o)
                        | SOptionGroup _ _ => ([], [])
                        end)
          (select_children select)
  | _ => []
  end
  = [(lit "Version 1.0", lit "install//v1.0"); (lit "Version 2.0", lit "install//v2.0")].
Proof. reflexivity. Qed.

(** A drawer away from the active section starts closed; a click opens
    it, a second click closes it, and neither navigates. *)
Example drawer_clicks :
  inst_isOpen (mount (propsOf "elsewhere" sampleDrawer)) = false
  /\ inst_isOpen (step NodeLink (mount (propsOf "elsewhere" sampleDrawer)) Click) = true
  /\ inst_isOpen (step NodeLink
                    (step NodeLink (mount (propsOf "elsewhere" sampleDrawer)) Click)
                    Click) = false
  /\ click (NodeLink (propsOf "elsewhere" sampleDrawer) false) = [SetIsOpen true].
Proof. repeat split. Qed.

(** The first render of the sample tree on page ["a/b"]: the root is open
    and shows its child, one level down. *)
Example mount_sample_tree :
  mountTree NodeLink "a/b"%string tt 1 sampleRoot
  = RNode (NodeLink (propsOf "a/b" sampleRoot) true)
          [RNode (NodeLink {| activeSection := "a/b"%string; handleClick := tt;
                              level := 2; node := sampleChild |} true) []].
Proof. reflexivity. Qed.

End Examples.


(** * Further properties of the table of contents *)

Module TocExtras.

Import Toc TocFacts Reading.

Lemma depsEqb_refl (d : bool * option string) : depsEqb d d = true.
Proof.
  destruct d as [b [a |]]; unfold depsEqb; cbn [fst snd];
    rewrite Bool.eqb_reflx; [apply String.eqb_refl | reflexivity].
Qed.

Lemma revision_synced {Callback : Type}
      (nl : Props Callback -> bool -> SideNavItem Callback)
      (p0 : Props Callback) (i : Instance Callback) :
  nl = NodeLink \/ nl = NodeLink_SyncCloud ->
  reachable nl p0 i -> synced i.
Proof.
  intros [-> | ->] H.
  - eapply reachable_synced; exact H.
  - eapply reachable_synced, reachable_revisions_agree; exact H.
Qed.

(** X1: a node that is not a drawer with children is open exactly when it is
    active, whatever renders and clicks it has seen: its clicks navigate
    and never touch [isOpen]. *)
Theorem link_node_open_iff_active {Callback : Type}
        (nl : Props Callback -> bool -> SideNavItem Callback)
        (p0 : Props Callback) (i : Instance Callback) :
  nl = NodeLink \/ nl = NodeLink_SyncCloud ->
  reachable nl p0 i ->
  isDrawer (inst_props i) && hasChildren (inst_props i) = false ->
  inst_isOpen i = isActive (inst_props i).
Proof.
  intros Hnl Hreach Hlink.
  destruct (revision_synced nl p0 i Hnl Hreach) as [_ Hopen].
  apply Hopen. exact Hlink.
Qed.

Lemma link_node_open_iff_active_witness :
  inst_isOpen (step NodeLink
                 (step NodeLink (mount (propsOf "elsewhere" sampleRoot)) Click)
                 (Rerender "a/b")) = true.
Proof.
  apply (link_node_open_iff_active NodeLink (propsOf "elsewhere" sampleRoot)
           (step NodeLink
              (step NodeLink (mount (propsOf "elsewhere" sampleRoot)) Click)
              (Rerender "a/b"))).
  - left; reflexivity.
  - apply reach_step, reach_step, reach_mount.
  - reflexivity.
Defined.

(** X2: a render that brings the same active section leaves [isOpen] as it
    is: a drawer the user opened or closed stays so until the section
    changes. *)
Theorem same_section_keeps_isOpen {Callback : Type}
        (nl : Props Callback -> bool -> SideNavItem Callback)
        (p0 : Props Callback) (i : Instance Callback) :
  nl = NodeLink \/ nl = NodeLink_SyncCloud ->
  reachable nl p0 i ->
  inst_isOpen (step nl i (Rerender (activeSection (inst_props i)))) = inst_isOpen i.
Proof.
  intros Hnl Hreach.
  destruct (revision_synced nl p0 i Hnl Hreach) as [Hdeps _].
  cbn [step inst_isOpen]. rewrite Hdeps.
  change (effectDeps (withActiveSection (inst_props i) (activeSection (inst_props i))))
    with (effectDeps (inst_props i)).
  rewrite depsEqb_refl. reflexivity.
Qed.

Lemma same_section_keeps_isOpen_witness :
  inst_isOpen (step NodeLink
                 (step NodeLink (mount (propsOf "elsewhere" sampleDrawer)) Click)
                 (Rerender "elsewhere")) = true.
Proof.
  apply (same_section_keeps_isOpen NodeLink (propsOf "elsewhere" sampleDrawer)
           (step NodeLink (mount (propsOf "elsewhere" sampleDrawer)) Click)).
  - left; reflexivity.
  - apply reach_step, reach_mount.
Defined.

(** X3: two clicks in a row leave [isOpen] where it was, on a drawer and on a
    link alike, and a click never changes the props. *)
Theorem two_clicks_restore_isOpen {Callback : Type} (i : Instance Callback) :
  inst_isOpen (step NodeLink (step NodeLink i Click) Click) = inst_isOpen i
  /\ inst_isOpen (step NodeLink_SyncCloud (step NodeLink_SyncCloud i Click) Click)
     = inst_isOpen i
  /\ inst_props (step NodeLink i Click) = inst_props i
  /\ inst_props (step NodeLink_SyncCloud i Click) = inst_props i.
Proof.
  rewrite !step_revisions_agree.
  assert (H : inst_isOpen (step NodeLink (step NodeLink i Click) Click) = inst_isOpen i).
  { cbn [step inst_isOpen inst_props]. unfold NodeLink.
    destruct (isTocIcon (inst_props i)), (isDrawer (inst_props i)),
      (hasChildren (inst_props i)), (inst_isOpen i); reflexivity. }
  repeat split; exact H.
Qed.

Lemma NodeLink_level {Callback : Type} (p : Props Callback) (isOpen : bool) :
  item_level (NodeLink p isOpen) = level p.
Proof.
  unfold NodeLink.
  destruct (isTocIcon p), (isDrawer p), (hasChildren p); reflexivity.
Qed.

Lemma mountTree_unfold {Callback : Type}
      (nl : Props Callback -> bool -> SideNavItem Callback)
      (a : string) (h : Callback) (lvl : nat) (n : TocNode) :
  mountTree nl a h lvl n
  = RNode (nl {| activeSection := a; handleClick := h; level := lvl; node := n |}
              (isActive {| activeSection := a; handleClick := h; level := lvl; node := n |}))
          (if isActive {| activeSection := a; handleClick := h; level := lvl; node := n |}
           then map (mountTree nl a h (lvl + 1)) (children n) else []).
Proof. destruct n; reflexivity. Qed.

Lemma revisions_agree_tree {Callback : Type}
      (a : string) (h : Callback) (lvl : nat) (n : TocNode) :
  mountTree NodeLink_SyncCloud a h lvl n = mountTree NodeLink a h lvl n.
Proof.
  revert lvl. induction n as [t s u cs o IH] using TocNode_tree_ind. intros lvl.
  rewrite !mountTree_unfold, NodeLink_revisions_agree. f_equal.
  destruct (isActive _); [| reflexivity].
  cbn [children]. apply map_ext_Forall.
  eapply Forall_impl; [| exact IH]. intros c Hc. apply Hc.
Qed.

(** X5: on a first render every item carries the level of its depth: the
    root the level it was given, each child one more than its parent. *)
Theorem mountTree_levels {Callback : Type}
        (a : string) (h : Callback) (lvl : nat) (n : TocNode) :
  levelsFrom lvl (mountTree NodeLink a h lvl n) = true
  /\ levelsFrom lvl (mountTree NodeLink_SyncCloud a h lvl n) = true.
Proof.
  assert (H : forall n lvl, levelsFrom lvl (mountTree NodeLink a h lvl n) = true).
  { clear. intros n. induction n as [t s u cs o IH] using TocNode_tree_ind. intros lvl.
    rewrite mountTree_unfold. cbn [levelsFrom].
    rewrite NodeLink_level. cbn [level]. rewrite Nat.eqb_refl. cbn [andb].
    destruct (isActive _); [| reflexivity].
    cbn [children]. apply forallb_forall.
    intros r Hr. apply in_map_iff in Hr. destruct Hr as (c & <- & Hc).
    rewrite Forall_forall in IH.
    replace (S lvl) with (lvl + 1) by lia. apply IH. exact Hc. }
  split; [apply H |].
  pose proof (revisions_agree_tree a h lvl n) as E. rewrite E. apply H.
Qed.

End TocExtras.

(** * Further properties of the version dropdown *)

Module VersionExtras.

Import Js Regex Version RegexFacts Reading.
Open Scope char_scope.
Open Scope list_scope.

(** ** Labels *)

Lemma dropLeadingNonDigits_app (prefix s : str) :
  forallb (fun c => negb (isDigit c)) prefix = true ->
  dropLeadingNonDigits (prefix ++ s) = dropLeadingNonDigits s.
Proof.
  induction prefix as [|x prefix IH]; [reflexivity |].
  cbn [forallb app dropLeadingNonDigits]. intros H.
  apply andb_true_iff in H. destruct H as [Hx H].
  apply negb_true_iff in Hx. rewrite Hx. apply IH. exact H.
Qed.

Lemma dropLeadingNonDigits_digit (d : ascii) (rest : str) :
  isDigit d = true -> dropLeadingNonDigits (d :: rest) = d :: rest.
Proof. intros H. cbn [dropLeadingNonDigits]. rewrite H. reflexivity. Qed.

Lemma dropLeadingNonDigits_head (s : str) :
  match dropLeadingNonDigits s with
  | [] => True
  | d :: _ => isDigit d = true
  end.
Proof.
  induction s as [|x s IH]; [exact I |].
  cbn [dropLeadingNonDigits]. destruct (isDigit x) eqn:Hx; [exact Hx | exact IH].
Qed.

Lemma createVersionLabel_label (label : str) (other : option str) :
  label <> [] ->
  createVersionLabel (Some label) other
  = if isEmpty (dropLeadingNonDigits label) then label
    else lit "Version " ++ dropLeadingNonDigits label.
Proof.
  intros Hne. unfold createVersionLabel. cbv zeta. cbn [orEmpty].
  destruct label as [|x label]; [contradiction |].
  cbn [isEmpty andb]. rewrite replace_leadingNonDigits. reflexivity.
Qed.

Lemma createVersionLabel_filled (urlSlug gitBranchName : option str) :
  createVersionLabel urlSlug gitBranchName <> [].
Proof.
  unfold createVersionLabel. cbv zeta.
  rewrite replace_leadingNonDigits.
  destruct (orEmpty urlSlug) as [|x l]; cbn [isEmpty andb].
  - destruct (orEmpty gitBranchName) as [|y m]; cbn [isEmpty]; [discriminate |].
    destruct (dropLeadingNonDigits (y :: m)); cbn [isEmpty]; discriminate.
  - destruct (dropLeadingNonDigits (x :: l)); cbn [isEmpty]; discriminate.
Qed.

Lemma getUILabel_filled (branch : Branch) : getUILabel branch <> [].
Proof.
  unfold getUILabel. destruct (versionSelectorLabel branch) as [[|x l] |];
    cbn [isEmpty]; try apply createVersionLabel_filled. discriminate.
Qed.

(** X6: neither [createVersionLabel] nor [getUILabel] ever returns the empty
    string: every option of the select has a text. *)
Theorem labels_never_empty (urlSlug gitBranchName : option str) (branch : Branch) :
  createVersionLabel urlSlug gitBranchName <> []
  /\ getUILabel branch <> [].
Proof.
  split; [apply createVersionLabel_filled | apply getUILabel_filled].
Qed.

Lemma createVersionLabel_cases (urlSlug gitBranchName : option str) :
  createVersionLabel urlSlug gitBranchName = lit "Version Name Unknown"
  \/ (dropLeadingNonDigits (createVersionLabel urlSlug gitBranchName) = [])
  \/ exists d rest,
       createVersionLabel urlSlug gitBranchName = lit "Version " ++ d :: rest
       /\ isDigit d = true.
Proof.
  unfold createVersionLabel. cbv zeta. rewrite replace_leadingNonDigits.
  destruct (isEmpty (orEmpty urlSlug) && isEmpty (orEmpty gitBranchName));
    [left; reflexivity | right].
  set (label := if isEmpty (orEmpty urlSlug) then orEmpty gitBranchName
                else orEmpty urlSlug).
  pose proof (dropLeadingNonDigits_head label) as Hhead.
  destruct (dropLeadingNonDigits label) as [|d rest] eqn:Hdrop; cbn [isEmpty].
  - left. exact Hdrop.
  - right. exists d, rest. split; [reflexivity | exact Hhead].
Qed.

(** X7: a label made by [createVersionLabel] is left as it is when it is
    used as a slug in turn. *)
Theorem createVersionLabel_idempotent (urlSlug gitBranchName other : option str) :
  createVersionLabel (Some (createVersionLabel urlSlug gitBranchName)) other
  = createVersionLabel urlSlug gitBranchName.
Proof.
  rewrite createVersionLabel_label by apply createVersionLabel_filled.
  destruct (createVersionLabel_cases urlSlug gitBranchName)
    as [-> | [-> | (d & rest & -> & Hd)]]; try reflexivity.
  rewrite (dropLeadingNonDigits_app (lit "Version ")) by reflexivity.
  rewrite (dropLeadingNonDigits_digit d rest Hd). reflexivity.
Qed.

(** X8: whatever stands before the first digit of a slug or branch name is
    dropped: [1.0], [v1.0] and [android-v1.0] all give [Version 1.0]. *)
Theorem createVersionLabel_drops_prefix
        (prefix rest : str) (d : ascii) (other : option str) :
  forallb (fun c => negb (isDigit c)) prefix = true ->
  isDigit d = true ->
  createVersionLabel (Some (prefix ++ d :: rest)) other = lit "Version " ++ d :: rest
  /\ createVersionLabel None (Some (prefix ++ d :: rest)) = lit "Version " ++ d :: rest
  /\ createVersionLabel (Some []) (Some (prefix ++ d :: rest)) = lit "Version " ++ d :: rest.
Proof.
  intros Hprefix Hd.
  assert (Hdrop : dropLeadingNonDigits (prefix ++ d :: rest) = d :: rest).
  { rewrite dropLeadingNonDigits_app by exact Hprefix.
    apply dropLeadingNonDigits_digit. exact Hd. }
  assert (Hne : prefix ++ d :: rest <> []) by (destruct prefix; discriminate).
  split; [rewrite createVersionLabel_label, Hdrop by exact Hne; reflexivity |].
  split; unfold createVersionLabel; cbv zeta; cbn [orEmpty isEmpty andb];
    rewrite replace_leadingNonDigits, Hdrop;
    destruct (prefix ++ d :: rest); try contradiction; reflexivity.
Qed.

Lemma createVersionLabel_drops_prefix_witness :
  createVersionLabel (Some (lit "android-v1.0")) (Some (lit "master")) = lit "Version 1.0".
Proof.
  apply (createVersionLabel_drops_prefix (lit "android-v") (lit ".0") "1"
           (Some (lit "master"))); reflexivity.
Defined.

(** ** The path prefix *)

Lemma lastIndexOf_absent (c : ascii) (s : str) :
  forallb (fun x => negb (x =? c)) s = true -> lastIndexOf c s = None.
Proof.
  induction s as [|x s IH]; [reflexivity |].
  cbn [forallb lastIndexOf]. intros H. apply andb_true_iff in H. destruct H as [Hx H].
  rewrite (IH H). apply negb_true_iff in Hx. rewrite Hx. reflexivity.
Qed.

Lemma lastIndexOf_last (c : ascii) (base seg : str) :
  forallb (fun x => negb (x =? c)) seg = true ->
  lastIndexOf c (base ++ c :: seg) = Some (length base).
Proof.
  intros Hseg. induction base as [|x base IH].
  - cbn [app lastIndexOf length]. rewrite (lastIndexOf_absent c seg Hseg).
    rewrite Ascii.eqb_refl. reflexivity.
  - cbn [app lastIndexOf length]. rewrite IH. reflexivity.
Qed.

(** X9: outside the manual's production build, a path prefix gives the
    prefix of a version by replacing what follows its last slash. *)
Theorem generatePrefix_replaces_last_segment
        (generatePathPrefix : SiteMetadata -> str) (meta : SiteMetadata)
        (base seg version : str) :
  strEqb (project meta) (lit "docs") && strEqb (snootyEnv meta) (lit "production") = false ->
  pathPrefix meta = Some (base ++ "/" :: seg) ->
  forallb (fun x => negb (x =? "/")) seg = true ->
  generatePrefix generatePathPrefix meta version = base ++ "/" :: version.
Proof.
  intros Hmanual Hprefix Hseg. unfold generatePrefix.
  rewrite Hmanual, Hprefix.
  replace (isEmpty (base ++ "/" :: seg)) with false by (destruct base; reflexivity).
  rewrite (lastIndexOf_last "/" base seg Hseg).
  rewrite firstn_app, firstn_all, Nat.sub_diag, firstn_0, app_nil_r. reflexivity.
Qed.

Lemma generatePrefix_replaces_last_segment_witness :
  generatePrefix (fun _ => [])
                 {| parserBranch := lit "master"; pathPrefix := Some (lit "/docs/realm/v1.0");
                    project := lit "realm"; snootyEnv := lit "production" |}
                 (lit "v2.0")
  = lit "/docs/realm/v2.0".
Proof.
  apply (generatePrefix_replaces_last_segment
           (fun _ => [])
           {| parserBranch := lit "master"; pathPrefix := Some (lit "/docs/realm/v1.0");
              project := lit "realm"; snootyEnv := lit "production" |}
           (lit "/docs/realm") (lit "v1.0") (lit "v2.0")); reflexivity.
Defined.

(** ** The realm filter *)

(** X10: the filter throws exactly on a realm SDK page when [groups] is
    missing or, with a branch at hand, when no group shares a prefix with
    the slug or the first that does lists no branches. *)
Theorem realmSdkFilter_throws_iff
        (meta : SiteMetadata) (slug : str)
        (branches : list Branch) (groups : option (list Group)) :
  realmSdkFilter meta slug branches groups = Thrown <->
  strEqb (project meta) (lit "realm") && includes slug (lit "sdk/") = true
  /\ match groups with
     | None => True
     | Some gs =>
         branches <> []
         /\ match filter (sharesPrefix slug) gs with
            | [] => True
            | g0 :: _ => includedBranches g0 = None
            end
     end.
Proof.
  unfold realmSdkFilter. fold (sharesPrefix slug).
  destruct (strEqb (project meta) (lit "realm") && includes slug (lit "sdk/"));
    [| split; [discriminate | intros [H _]; discriminate H]].
  destruct groups as [gs |]; [| split; [intros _; split; [reflexivity | exact I] | reflexivity]].
  destruct branches as [|b branches].
  - split; [discriminate | intros [_ [H _]]; contradiction].
  - destruct (filter (sharesPrefix slug) gs) as [|g0 gs'].
    + split; [intros _; repeat split; discriminate | reflexivity].
    + destruct (includedBranches g0).
      * split; [discriminate | intros [_ [_ H]]; discriminate H].
      * split; [intros _; repeat split; discriminate | reflexivity].
Qed.

(** X11: when the filter returns, it hands on branches of the input only;
    off a realm SDK page it changes nothing, and on one every branch
    left is listed by the first group that shares a prefix with the
    slug. *)
Theorem realmSdkFilter_narrows
        (meta : SiteMetadata) (slug : str)
        (branches : list Branch) (groups : option (list Group))
        (branches' : list Branch) (groups' : option (list Group)) :
  realmSdkFilter meta slug branches groups = Returned (branches', groups') ->
  incl branches' branches
  /\ (if strEqb (project meta) (lit "realm") && includes slug (lit "sdk/")
      then exists gs,
          groups = Some gs
          /\ groups' = Some (filter (sharesPrefix slug) gs)
          /\ Forall (fun b => exists g0 names,
                         hd_error (filter (sharesPrefix slug) gs) = Some g0
                         /\ includedBranches g0 = Some names
                         /\ In (gitBranchName b) names)
                    branches'
      else branches' = branches /\ groups' = groups).
Proof.
  unfold realmSdkFilter. fold (sharesPrefix slug).
  destruct (strEqb (project meta) (lit "realm") && includes slug (lit "sdk/")).
  - destruct groups as [gs |]; [| discriminate].
    destruct branches as [|b branches].
    + intros [= <- <-]. split; [apply incl_refl |].
      exists gs. repeat split. constructor.
    + remember (b :: branches) as bs eqn:Hbs.
      destruct (filter (sharesPrefix slug) gs) as [|g0 gs'] eqn:Hgs; [discriminate |].
      destruct (includedBranches g0) as [names |] eqn:Hnames; [| discriminate].
      intros [= <- <-]. split; [apply incl_filter |].
      exists gs. rewrite Hgs. repeat split.
      apply Forall_forall. intros x Hx. apply filter_In in Hx. destruct Hx as [_ Hx].
      exists g0, names. repeat split; [exact Hnames |].
      apply existsb_exists in Hx. destruct Hx as (n & Hn & Heq).
      apply strEqb_eq in Heq. rewrite Heq. exact Hn.
  - intros [= <- <-]. split; [apply incl_refl | split; reflexivity].
Qed.

Lemma realmSdkFilter_narrows_witness :
  incl [sampleBranch "android-v1.0"]
       [sampleBranch "android-v1.0"; sampleBranch "ios-v2.0"].
Proof.
  apply (realmSdkFilter_narrows sampleMetadata (lit "sdk/android/install")
           [sampleBranch "android-v1.0"; sampleBranch "ios-v2.0"] (Some [sampleGroup])
           [sampleBranch "android-v1.0"] (Some [sampleGroup])).
  reflexivity.
Defined.

(** ** Branches and options *)

(** X12: [findBranch] returns a branch only when it is the one branch of that
    name. *)
Theorem findBranch_unique (branches : list Branch) (name : str) (b : Branch) :
  findBranch branches name = Some b ->
  In b branches
  /\ gitBranchName b = name
  /\ forall b', In b' branches -> gitBranchName b' = name -> b' = b.
Proof.
  unfold findBranch.
  destruct (filter (fun b0 => strEqb (gitBranchName b0) name) branches)
    as [|b0 [|b1 l]] eqn:Hfilter; try discriminate.
  intros [= ->].
  assert (Hin : In b (filter (fun b0 => strEqb (gitBranchName b0) name) branches))
    by (rewrite Hfilter; left; reflexivity).
  apply filter_In in Hin. destruct Hin as [Hin Hname]. apply strEqb_eq in Hname.
  repeat split; [exact Hin | exact Hname |].
  intros b' Hin' Hname'.
  assert (H : In b' (filter (fun b0 => strEqb (gitBranchName b0) name) branches)).
  { apply filter_In. split; [exact Hin' | apply strEqb_eq; exact Hname']. }
  rewrite Hfilter in H. destruct H as [H | []]. symmetry. exact H.
Qed.

Lemma findBranch_unique_witness :
  gitBranchName (sampleBranch "ios-v2.0") = lit "ios-v2.0".
Proof.
  apply (findBranch_unique [sampleBranch "android-v1.0"; sampleBranch "ios-v2.0"]
           (lit "ios-v2.0") (sampleBranch "ios-v2.0")).
  reflexivity.
Defined.

(** X13: the ungrouped options are those of the branches that are active and
    that no group lists, as the comment over the function says. *)
Theorem getActiveUngroupedBranches_spec
        (branches : list Branch) (groups : list Group) (b : Branch) :
  In b (getActiveUngroupedBranches branches groups) <->
  In b branches
  /\ active b = true
  /\ ~ (exists g names,
          In g groups /\ includedBranches g = Some names /\ In (gitBranchName b) names).
Proof.
  unfold getActiveUngroupedBranches. rewrite filter_In, andb_true_iff, negb_true_iff.
  assert (Hgrouped :
            existsb (strEqb (gitBranchName b)) (groupedBranchNames groups) = true <->
            exists g names,
              In g groups /\ includedBranches g = Some names /\ In (gitBranchName b) names).
  { rewrite existsb_exists. unfold groupedBranchNames. split.
    - intros (n & Hn & Heq). apply strEqb_eq in Heq. subst n.
      apply in_flat_map in Hn. destruct Hn as (g & Hg & Hn).
      destruct (includedBranches g) as [names |] eqn:E; [| contradiction].
      exists g, names. repeat split; assumption.
    - intros (g & names & Hg & Hnames & Hn).
      exists (gitBranchName b). split; [| apply strEqb_refl].
      apply in_flat_map. exists g. split; [exact Hg |]. rewrite Hnames. exact Hn. }
  split.
  - intros (Hin & Hnot & Hact). repeat split; [exact Hin | exact Hact |].
    intros H. apply Hgrouped in H. rewrite H in Hnot. discriminate.
  - intros (Hin & Hact & Hnot). repeat split; [exact Hin | | exact Hact].
    destruct (existsb _ _) eqn:E; [| reflexivity].
    exfalso. apply Hnot, Hgrouped. reflexivity.
Qed.

(** ** The component as the file stands *)

(** X16: [groupBranches] is bound nowhere in the file, so the component
    never gets as far as a select: whenever it returns, it returns [null]
    with the one warning, fewer than two branches being left after the
    filter; with two branches or more it throws. *)
Theorem VersionDropdown_never_selects
        (generatePathPrefix : SiteMetadata -> str)
        (getLegacyProjectURL normalizePath : str -> str)
        (flag : bool) (meta : SiteMetadata)
        (branches : list Branch) (groups : option (list Group)) (slug : str)
        (branches' : list Branch) (groups' : option (list Group)) :
  realmSdkFilter meta slug branches groups = Returned (branches', groups') ->
  (2 <= length branches' <->
   VersionDropdown generatePathPrefix getLegacyProjectURL normalizePath
                   None flag meta branches groups slug
   = Thrown)
  /\ (forall rendered console,
         VersionDropdown generatePathPrefix getLegacyProjectURL normalizePath
                         None flag meta branches groups slug
         = Returned (rendered, console) ->
         rendered = RNull /\ console = [Warn insufficientBranches]
         /\ length branches' < 2).
Proof.
  intros Hfilter. unfold VersionDropdown. rewrite Hfilter. cbn [bind].
  destruct (length branches' <? 2)%nat eqn:Hlen.
  - apply Nat.ltb_lt in Hlen. split.
    + split; [lia | discriminate].
    + intros rendered console [= <- <-]. repeat split. exact Hlen.
  - apply Nat.ltb_ge in Hlen. split.
    + split; [reflexivity | intros _; exact Hlen].
    + intros rendered console H. discriminate H.
Qed.

Lemma VersionDropdown_never_selects_witness :
  VersionDropdown (fun _ => []) (fun p => p) (fun p => p) None true
                  {| parserBranch := lit "master"; pathPrefix := None;
                     project := lit "docs"; snootyEnv := lit "production" |}
                  [sampleBranch "v1.0"; sampleBranch "v2.0"] (Some []) (lit "install")
  = Thrown.
Proof.
  apply (VersionDropdown_never_selects
           (fun _ => []) (fun p => p) (fun p => p) true
           {| parserBranch := lit "master"; pathPrefix := None;
              project := lit "docs"; snootyEnv := lit "production" |}
           [sampleBranch "v1.0"; sampleBranch "v2.0"] (Some []) (lit "install")
           [sampleBranch "v1.0"; sampleBranch "v2.0"] (Some [])).
  - reflexivity.
  - simpl. lia.
Defined.

End VersionExtras.

(** * Further properties of the search result *)

Module SearchExtras.

Import Js Regex SanitizeHtml Search RegexFacts SearchFacts SanitizeFacts Reading.
Open Scope char_scope.
Open Scope list_scope.

(** ** [escapeRegExp] *)

Lemma escapeChar_head (c : ascii) :
  exists rest, escapeChar c = (if isSyntaxCharacter c then "\" else c) :: rest.
Proof. unfold escapeChar. destruct (isSyntaxCharacter c); eexists; reflexivity. Qed.

(** X17: escaping goes character by character, so it distributes over
    concatenation, and no two terms are escaped to the same pattern. *)
Theorem escapeRegExp_injective (a b : str) :
  escapeRegExp (a ++ b) = escapeRegExp a ++ escapeRegExp b
  /\ (escapeRegExp a = escapeRegExp b <-> a = b).
Proof.
  rewrite !escapeRegExp_spec. split; [apply flat_map_app |].
  split; [| intros ->; reflexivity].
  revert b. induction a as [|x a IH]; intros [|y b] H.
  - reflexivity.
  - cbn [flat_map] in H. destruct (escapeChar_head y) as (r & E). rewrite E in H.
    discriminate H.
  - cbn [flat_map] in H. destruct (escapeChar_head x) as (r & E). rewrite E in H.
    discriminate H.
  - cbn [flat_map] in H. unfold escapeChar at 1 3 in H.
    destruct (isSyntaxCharacter x) eqn:Hx, (isSyntaxCharacter y) eqn:Hy;
      cbn [app] in H.
    + injection H as -> H. f_equal. apply IH. exact H.
    + injection H as <- _. discriminate Hy.
    + injection H as -> _. discriminate Hx.
    + injection H as -> H. f_equal. apply IH. exact H.
Qed.

(** ** [highlightSearchTerm] *)

Lemma segments_grow (yellow : str) (segs : list Segment) :
  length (flat_map segmentText segs) <= length (flat_map (renderSegment yellow) segs)
  /\ (length (flat_map (renderSegment yellow) segs) = length (flat_map segmentText segs) ->
      forallb (fun seg => match seg with Plain _ => true | Occurrence _ => false end) segs
      = true).
Proof.
  induction segs as [|[c | m] segs [IHle IHeq]]; [split; reflexivity | |];
    cbn [flat_map segmentText renderSegment forallb]; rewrite !length_app.
  - cbn [length]. split; [lia |]. intros H. apply IHeq. lia.
  - unfold highlightSpan. rewrite !length_app. cbn [length].
    split; [lia |]. intros H. lia.
Qed.

Lemma plain_segments_scanned (term : str) (segs : list Segment) :
  forallb (fun seg => match seg with Plain _ => true | Occurrence _ => false end) segs = true ->
  scanned term segs = true ->
  occursAt term [] = false ->
  occursIn term (flat_map segmentText segs) = false.
Proof.
  intros Hplain Hscan Hnil. induction segs as [|[c | m] segs IH].
  - cbn [flat_map occursIn]. rewrite Hnil. reflexivity.
  - cbn [forallb scanned flat_map segmentText app occursIn] in *.
    apply andb_true_iff in Hscan. destruct Hscan as [Hhead Hscan].
    apply negb_true_iff in Hhead. rewrite Hhead. apply IH; assumption.
  - discriminate Hplain.
Qed.

Lemma copies_without_occurrence (yellow : str) (c : ascii) (term text : str) (i : nat) :
  occursIn (c :: term) text = false ->
  replaceAll (literalRegExp (c :: term)) (highlightSpan yellow) i 0 text = text.
Proof.
  revert i. induction text as [|x text IH]; intros i H.
  - cbn [replaceAll]. rewrite literal_matchAt. reflexivity.
  - cbn [occursIn] in H. apply orb_false_iff in H. destruct H as [Hhere Hlater].
    rewrite replaceAll_no_match by (rewrite literal_matchAt, Hhere; reflexivity).
    rewrite IH by exact Hlater. reflexivity.
Qed.

(** X18: a term of one character or more leaves the text as it is exactly
    when it occurs nowhere in it, letter case aside. *)
Theorem highlight_unchanged_iff_absent (yellow text term : str) (c : ascii) :
  highlightSearchTerm yellow text (c :: term) = Some text
  <-> occursIn (c :: term) text = false.
Proof.
  unfold highlightSearchTerm. rewrite newRegExp_escaped.
  fold (literalRegExp (c :: term)).
  unfold replaceWith. change (global (literalRegExp (c :: term))) with true. cbn iota.
  split.
  - intros [= H].
    destruct (replaceAll_literal yellow c term (length text) text 0 (le_n _))
      as (segs & Hout & Htext & Hscan).
    rewrite Hout in H. rewrite <- Htext in H |- *.
    apply plain_segments_scanned; [| exact Hscan | reflexivity].
    apply (segments_grow yellow). rewrite H. reflexivity.
  - intros H. rewrite copies_without_occurrence by exact H. reflexivity.
Qed.

(** ** [sanitizePreviewHtml] *)

Section Preview.

Variable yellow : str.

Let o : Options := previewOptions (colourRegExp yellow).

Lemma kept_attribute (a : Attribute) :
  attributeListed yellow a = true -> styled a = true ->
  filterAttribute o (lit "span") a = [a].
Proof.
  destruct a as [ds | name value]; [| discriminate].
  cbn [attributeListed]. intros Hlisted Hstyled.
  unfold filterAttribute.
  change (attributeAllowed o (lit "span") (attributeName (StyleAttr ds))) with true.
  cbn iota.
  change (filterCss o (lit "span") ds)
    with (filter (declarationAllowed [(lit "background-color", [colourRegExp yellow])]) ds).
  replace (filter (declarationAllowed [(lit "background-color", [colourRegExp yellow])]) ds)
    with ds.
  - destruct ds; [discriminate Hstyled | reflexivity].
  - symmetry. apply forallb_filter_id.
    rewrite forallb_forall in Hlisted |- *. intros d Hd.
    rewrite preview_declaration. apply Hlisted. exact Hd.
Qed.

Lemma kept_node (n : Html) :
  allowListed yellow n = true -> everyStyleFilled n = true ->
  sanitizeNode o n = [n].
Proof.
  induction n as [t | tag attrs kids IH] using Html_tree_ind; [reflexivity |].
  cbn [allowListed everyStyleFilled sanitizeNode]. intros Hlisted Hfilled.
  apply andb_true_iff in Hlisted. destruct Hlisted as [Hlisted Hkids].
  apply andb_true_iff in Hlisted. destruct Hlisted as [Htag Hattrs].
  apply andb_true_iff in Hfilled. destruct Hfilled as [Hstyled Hfilled].
  apply strEqb_eq in Htag. subst tag.
  change (member (lit "span") (allowedTags o)) with true. cbn iota.
  f_equal. f_equal.
  - clear IH Hkids Hfilled. induction attrs as [|a attrs IHa]; [reflexivity |].
    cbn [forallb flat_map] in *.
    apply andb_true_iff in Hattrs. destruct Hattrs as [Ha Hattrs].
    apply andb_true_iff in Hstyled. destruct Hstyled as [Hs Hstyled].
    rewrite (kept_attribute a Ha Hs), (IHa Hattrs Hstyled). reflexivity.
  - clear Hattrs Hstyled. induction IH as [|k kids Hk _ IHkids]; [reflexivity |].
    cbn [forallb flat_map] in *.
    apply andb_true_iff in Hkids. destruct Hkids as [Hk1 Hkids].
    apply andb_true_iff in Hfilled. destruct Hfilled as [Hk2 Hfilled].
    rewrite (Hk Hk1 Hk2), (IHkids Hkids Hfilled). reflexivity.
Qed.

Lemma kept_fragment (text : list Html) :
  forallb (allowListed yellow) text = true ->
  forallb everyStyleFilled text = true ->
  sanitizeHtml text o = text.
Proof.
  unfold sanitizeHtml. induction text as [|n text IH]; [reflexivity |].
  cbn [forallb flat_map]. intros Hl Hf.
  apply andb_true_iff in Hl. destruct Hl as [Hn Hl].
  apply andb_true_iff in Hf. destruct Hf as [Hn' Hf].
  rewrite (kept_node n Hn Hn'), (IH Hl Hf). reflexivity.
Qed.

Lemma filled_attribute (tag : str) (a : Attribute) :
  forallb styled (filterAttribute o tag a) = true.
Proof.
  unfold filterAttribute. destruct (attributeAllowed o tag (attributeName a)); [| reflexivity].
  destruct a as [ds | name value].
  - destruct (filterCss o tag ds); reflexivity.
  - destruct (strEqb name (lit "style")); reflexivity.
Qed.

Lemma filled_node (n : Html) : forallb everyStyleFilled (sanitizeNode o n) = true.
Proof.
  induction n as [t | tag attrs kids IH] using Html_tree_ind; [reflexivity |].
  assert (Hkids : forallb everyStyleFilled (flat_map (sanitizeNode o) kids) = true).
  { induction IH as [|k kids Hk _ IHkids]; [reflexivity |].
    cbn [flat_map]. rewrite forallb_app, Hk, IHkids. reflexivity. }
  cbn [sanitizeNode]. destruct (member tag (allowedTags o)).
  - cbn [forallb everyStyleFilled]. rewrite Hkids, !andb_true_r.
    induction attrs as [|a attrs IHa]; [reflexivity |].
    cbn [flat_map]. rewrite forallb_app, filled_attribute, IHa. reflexivity.
  - destruct (member tag nonTextTags); [reflexivity | exact Hkids].
Qed.

Lemma filled_fragment (text : list Html) :
  forallb everyStyleFilled (sanitizeHtml text o) = true.
Proof.
  unfold sanitizeHtml. induction text as [|n text IH]; [reflexivity |].
  cbn [flat_map]. rewrite forallb_app, filled_node, IH. reflexivity.
Qed.

Lemma shown_node (n : Html) :
  flat_map textContent (sanitizeNode o n) = shownText n.
Proof.
  induction n as [t | tag attrs kids IH] using Html_tree_ind;
    [cbn; apply app_nil_r |].
  assert (Hkids : flat_map textContent (flat_map (sanitizeNode o) kids)
                  = flat_map shownText kids).
  { induction IH as [|k kids Hk _ IHkids]; [reflexivity |].
    cbn [flat_map]. rewrite flat_map_app, Hk, IHkids. reflexivity. }
  cbn [sanitizeNode shownText].
  change (member tag (allowedTags o)) with (strEqb tag (lit "span") || false).
  rewrite orb_false_r.
  destruct (strEqb tag (lit "span")).
  - cbn [flat_map textContent]. rewrite app_nil_r. exact Hkids.
  - destruct (member tag nonTextTags); [reflexivity | exact Hkids].
Qed.

Lemma shown_fragment (text : list Html) :
  flat_map textContent (sanitizeHtml text o) = flat_map shownText text.
Proof.
  unfold sanitizeHtml. induction text as [|n text IH]; [reflexivity |].
  cbn [flat_map]. rewrite flat_map_app, shown_node, IH. reflexivity.
Qed.

End Preview.

(** X19: a fragment made of text and of highlight spans only, each span with
    a style of [background-color] declarations in the highlight colour,
    passes through [sanitizePreviewHtml] unchanged: the highlights that
    [highlightSearchTerm] writes are on the allow-list. *)
Theorem preview_keeps_highlights (yellow : str) (text : list Html) :
  plainText yellow = true ->
  forallb (allowListed yellow) text = true ->
  forallb everyStyleFilled text = true ->
  sanitizePreviewHtml yellow text = Some text.
Proof.
  intros Hplain Hlisted Hfilled. unfold sanitizePreviewHtml.
  rewrite (newRegExp_colour yellow Hplain), kept_fragment by assumption.
  reflexivity.
Qed.

Lemma preview_keeps_highlights_witness :
  sanitizePreviewHtml sampleColour sampleHighlight = Some sampleHighlight.
Proof.
  apply (preview_keeps_highlights sampleColour sampleHighlight); reflexivity.
Defined.

(** X20: sanitizing twice is sanitizing once. *)
Theorem preview_idempotent (yellow : str) (text : list Html) :
  plainText yellow = true ->
  exists clean,
    sanitizePreviewHtml yellow text = Some clean
    /\ sanitizePreviewHtml yellow clean = Some clean.
Proof.
  intros Hplain. unfold sanitizePreviewHtml.
  rewrite (newRegExp_colour yellow Hplain).
  eexists. split; [reflexivity |].
  rewrite kept_fragment; [reflexivity | apply preview_fragment | apply filled_fragment].
Qed.

Lemma preview_idempotent_witness :
  exists clean,
    sanitizePreviewHtml sampleColour samplePreview = Some clean
    /\ sanitizePreviewHtml sampleColour clean = Some clean.
Proof.
  apply (preview_idempotent sampleColour samplePreview). reflexivity.
Defined.

(** X21: sanitizing drops markup, not text: the text left is the text of the
    input outside its [script], [style], [textarea] and [option]
    elements, in order. *)
Theorem preview_keeps_text (yellow : str) (text : list Html) :
  plainText yellow = true ->
  exists clean,
    sanitizePreviewHtml yellow text = Some clean
    /\ flat_map textContent clean = flat_map shownText text.
Proof.
  intros Hplain. unfold sanitizePreviewHtml.
  rewrite (newRegExp_colour yellow Hplain).
  eexists. split; [reflexivity | apply shown_fragment].
Qed.

Lemma preview_keeps_text_witness :
  exists clean,
    sanitizePreviewHtml sampleColour samplePreview = Some clean
    /\ flat_map textContent clean = lit "boldhit".
Proof.
  apply (preview_keeps_text sampleColour samplePreview). reflexivity.
Defined.

End SearchExtras.


(** * Properties of the feedback emoji *)

Module FeedbackExtras.

Import Version Feedback.
Open Scope string_scope.

Lemma getEmojiInfo_none (sentiment : string) :
  getEmojiInfo sentiment = None <->
  sentiment <> "happy" /\ sentiment <> "upset" /\ sentiment <> "suggesting".
Proof.
  unfold getEmojiInfo.
  destruct (sentiment =? "happy") eqn:H1;
    [apply String.eqb_eq in H1; split; [discriminate | intros [H _]; contradiction] |].
  destruct (sentiment =? "upset") eqn:H2;
    [apply String.eqb_eq in H2; split; [discriminate | intros [_ [H _]]; contradiction] |].
  destruct (sentiment =? "suggesting") eqn:H3;
    [apply String.eqb_eq in H3; split; [discriminate | intros [_ [_ H]]; contradiction] |].
  apply String.eqb_neq in H1, H2, H3. split; [intros _; repeat split; assumption | reflexivity].
Qed.

(** X22: in the two views, [sentimentView] and [commentView], rendering
    an emoji throws exactly when its sentiment is none of the three
    known: [getEmojiInfo] then returns [undefined], which the one view
    reads a property of and the other destructures. *)
Theorem emojiFactory_throws_iff (sentiment currPage : string) (isActive : option bool) :
  currPage = "sentimentView" \/ currPage = "commentView" ->
  (emojiFactory sentiment currPage isActive = Thrown <->
   sentiment <> "happy" /\ sentiment <> "upset" /\ sentiment <> "suggesting").
Proof.
  intros Hpage. rewrite <- getEmojiInfo_none.
  unfold emojiFactory, renderCommentEmoji.
  destruct Hpage as [-> | ->].
  - change ("sentimentView" =? "sentimentView") with true. cbn iota.
    destruct (getEmojiInfo sentiment); split; try discriminate; reflexivity.
  - change ("commentView" =? "sentimentView") with false.
    change ("commentView" =? "commentView") with true. cbn iota.
    destruct (getEmojiInfo sentiment); cbn [bind]; split; try discriminate; reflexivity.
Qed.

Lemma emojiFactory_throws_iff_witness :
  emojiFactory "angry" "commentView" None = Thrown <->
  "angry" <> "happy" /\ "angry" <> "upset" /\ "angry" <> "suggesting".
Proof.
  apply (emojiFactory_throws_iff "angry" "commentView" None). right; reflexivity.
Defined.





End FeedbackExtras.
